(** * Upbit coin dashboard: RSI, metrics aggregation and dashboard ordering

    A shallow embedding of [src/index.ts].

    - JavaScript numbers are IEEE-754 binary64 values: they are modelled by
      Rocq's primitive [float] type, whose operations are exactly the
      binary64 ones (round to nearest, ties to even) and whose behaviour is
      specified by [SpecFloat] through the [FloatAxioms] of the standard
      library.
    - Arrays are lists; the array handed to [generateDashboard] is also
      modelled as a reference into a heap, so that its in-place [sort] can be
      told apart from a sort of a copy.
    - The upstream HTTP API is an oracle from endpoints to responses. *)

From Stdlib Require Import ZArith List String Bool Lia Floats.
From Stdlib Require Import Reals Lra Permutation Sorted DecimalString.
From stdpp Require Import base gmap.
Import ListNotations.

Local Open Scope string_scope.
Local Open Scope float_scope.

(* ===================================================================== *)
(** ** JavaScript numbers *)
(* ===================================================================== *)

Module JS.

(** The type [number]. *)
Definition number := float.

(** [a === b] on numbers: IEEE equality, so [NaN === NaN] is false and
    [-0 === 0] is true. *)
Definition strict_eq (a b : number) : bool := (a =? b).

(** [a > b] *)
Definition gt (a b : number) : bool := (b <? a).

(** [a < b] *)
Definition lt (a b : number) : bool := (a <? b).

(** The number denoted by an integer: the binary64 value nearest to it
    (the integer itself up to [2^53]). *)
Definition of_Z (n : Z) : number := SF2Prim (binary_normalize prec emax n 0 false).

(** The number denoted by a count such as an array length or a loop
    bound. *)
Definition of_nat (n : nat) : number := of_Z (Z.of_nat n).

(** [Math.abs] *)
Definition Math_abs (x : number) : number := abs x.

(** [Math.round]: the integer closest to [x], a tie going towards
    [+Infinity]; [NaN], the infinities and the zeros are returned as they
    are, and a result of zero keeps the sign of [x].  A finite non-zero
    [x] is [(-1)^s * m * 2^e]; when [e < 0] the result is
    [floor (x + 1/2)], computed exactly on integers. *)
Definition Math_round (x : number) : number :=
  match Prim2SF x with
  | S754_finite s m e =>
      if (0 <=? e)%Z then x
      else
        let n := ((2 * cond_Zopp s (Zpos m) + 2 ^ (- e)) / 2 ^ (1 - e))%Z in
        if (n =? 0)%Z then (if s then neg_zero else zero) else of_Z n
  | _ => x
  end.

(** [a[i]] read as a number: a missing element is [undefined], which every
    arithmetic operator turns into [NaN]. *)
Definition index (a : list number) (i : nat) : number := nth i a nan.

(** [Array.prototype.sort (comparefn)].  ECMAScript requires a stable sort
    and fixes the result only for a consistent comparator; the result is
    then the one stable sorted arrangement, which this insertion sort
    computes.  A comparator value [v] puts its first argument behind its
    second exactly when [v > 0]; a [NaN] value counts as [0].  With a [NaN]
    comparator value the comparator is not consistent, and an engine may
    return another permutation than this one. *)
Section Sort.
Context {A : Type}.
Variable comparefn : A -> A -> number.

Fixpoint insert (x : A) (l : list A) : list A :=
  match l with
  | [] => [x]
  | y :: l' =>
      if gt (comparefn x y) 0 then y :: insert x l' else x :: y :: l'
  end.

Definition sort (l : list A) : list A := fold_right insert [] l.
End Sort.

End JS.

(* ===================================================================== *)
(** ** Data model *)
(* ===================================================================== *)

Record CandleData := mkCandle {
  candle_market : string;
  candle_date_time_utc : string;
  candle_date_time_kst : string;
  opening_price : JS.number;
  high_price : JS.number;
  low_price : JS.number;
  trade_price : JS.number;
  timestamp : JS.number;
  candle_acc_trade_price : JS.number;
  candle_acc_trade_volume : JS.number
}.

Record MarketInfo := mkMarket {
  info_market : string;
  korean_name : string;
  english_name : string
}.

Record CoinMetrics := mkMetrics {
  market : string;
  koreanName : string;
  currentPrice : JS.number;
  volume24h : JS.number;
  rsi : JS.number;
  priceChange24h : JS.number;
  priceChangePercent : JS.number
}.

(* ===================================================================== *)
(** ** [calculateRSI] *)
(* ===================================================================== *)

(** [period] is a number of observations and is modelled as a natural
    number; the only call in the program passes the default, 14.

    The body of [for (let i = 1; i <= period; i++)]: [n] iterations are
    left, [i] is the loop index. *)
Fixpoint rsi_loop (prices : list JS.number) (n i : nat)
    (gains losses : JS.number) : JS.number * JS.number :=
  match n with
  | O => (gains, losses)
  | S n' =>
      let change := JS.index prices i - JS.index prices (i - 1) in
      if JS.gt change 0
      then rsi_loop prices n' (S i) (gains + change) losses
      else rsi_loop prices n' (S i) gains (losses + JS.Math_abs change)
  end.

Definition calculateRSI (candles : list CandleData) (period : nat) : JS.number :=
  if (length candles <? period + 1)%nat then 50
  else
    let prices := rev (map trade_price candles) in
    let '(gains, losses) := rsi_loop prices period 1 0 0 in
    let avgGain := gains / JS.of_nat period in
    let avgLoss := losses / JS.of_nat period in
    if JS.strict_eq avgLoss 0 then 100
    else
      let rs := avgGain / avgLoss in
      let rsi := 100 - 100 / (1 + rs) in
      JS.Math_round (rsi * 100) / 100.

(** The default value of the parameter [period]. *)
Definition default_period : nat := 14.

(* ===================================================================== *)
(** ** [getCoinMetrics] *)
(* ===================================================================== *)

(** The outcome of awaiting a promise: a value, or a thrown error. *)
Inductive outcome (A : Type) : Type :=
| Fulfilled (a : A)
| Rejected (message : string).
Arguments Fulfilled {A} a.
Arguments Rejected {A} message.

(** [fetchUpbitAPI] resolves to [any]; its two call sites read the value as
    [MarketInfo[]] and as [CandleData[]].  The upstream service is an oracle
    with one typed view per call site; a network error, a status that is not
    ok and a body that does not decode are all [Rejected]. *)
Record Upstream := mkUpstream {
  fetch_markets : string -> outcome (list MarketInfo);
  fetch_candles : string -> outcome (list CandleData)
}.

Definition candles_endpoint (m : string) : string :=
  "/v1/candles/days?market=" ++ m ++ "&count=15".

(** [markets.filter (m => m.market.startsWith ('KRW-')).slice (0, 30)] *)
Definition krwMarkets (markets : list MarketInfo) : list MarketInfo :=
  firstn 30 (List.filter (fun m => String.prefix "KRW-" (info_market m)) markets).

(** The record built from a candle series that has at least two candles. *)
Definition buildMetrics (m : MarketInfo) (candles : list CandleData)
    (c0 c1 : CandleData) : CoinMetrics :=
  let currentPrice := trade_price c0 in
  let volume24h := candle_acc_trade_volume c0 in
  let priceYesterday := trade_price c1 in
  let priceChange24h := currentPrice - priceYesterday in
  let priceChangePercent := (priceChange24h / priceYesterday) * 100 in
  let rsi := calculateRSI candles default_period in
  mkMetrics (info_market m) (korean_name m) currentPrice volume24h rsi
            priceChange24h priceChangePercent.

(** The callback of [krwMarkets.map]: [None] is [null].  The [catch] block
    writes to the console, which is not modelled, and returns [null]. *)
Definition marketMetrics (up : Upstream) (m : MarketInfo) : option CoinMetrics :=
  match fetch_candles up (candles_endpoint (info_market m)) with
  | Rejected _ => None
  | Fulfilled candles =>
      match candles with
      | c0 :: c1 :: _ => Some (buildMetrics m candles c0 c1)
      | _ => None                       (* candles.length < 2 *)
      end
  end.

(** [results.filter (r => r !== null)] *)
Fixpoint non_null {A : Type} (l : list (option A)) : list A :=
  match l with
  | [] => []
  | Some a :: l' => a :: non_null l'
  | None :: l' => non_null l'
  end.

(** [Promise.all] keeps the order of its argument and every callback
    settles with a value, so the result is the list of the callbacks'
    values. *)
Definition getCoinMetrics (up : Upstream) : outcome (list CoinMetrics) :=
  match fetch_markets up "/v1/market/all" with
  | Rejected e => Rejected e
  | Fulfilled markets =>
      Fulfilled (non_null (map (marketMetrics up) (krwMarkets markets)))
  end.

(* ===================================================================== *)
(** ** [generateDashboard] *)
(* ===================================================================== *)

Definition by_volume (a b : CoinMetrics) : JS.number := volume24h b - volume24h a.
Definition by_rsi (a b : CoinMetrics) : JS.number := rsi b - rsi a.
Definition by_change (a b : CoinMetrics) : JS.number :=
  priceChangePercent b - priceChangePercent a.

(** The value of [sortedMetrics] when the rows are rendered. *)
Definition sortedMetrics (metrics : list CoinMetrics) (sortBy : string)
    : list CoinMetrics :=
  if String.eqb sortBy "volume" then JS.sort by_volume metrics
  else if String.eqb sortBy "rsi" then JS.sort by_rsi metrics
  else if String.eqb sortBy "change" then JS.sort by_change metrics
  else metrics.

(** What one table row shows. *)
Record Row := mkRow {
  row_rank : nat;
  row_name : string;
  row_market : string;
  row_price : JS.number;
  row_changeColor : string;
  row_changeSign : string;
  row_change : JS.number;
  row_volume : JS.number;
  row_rsiColor : string;
  row_rsi : JS.number
}.

Definition rowOf (index : nat) (coin : CoinMetrics) : Row :=
  let rsiColor :=
    if JS.gt (rsi coin) 70 then "#ef4444"
    else if JS.lt (rsi coin) 30 then "#3b82f6" else "#6b7280" in
  let changeColor :=
    if JS.gt (priceChangePercent coin) 0 then "#10b981" else "#ef4444" in
  mkRow (index + 1) (koreanName coin) (market coin) (currentPrice coin)
        changeColor
        (if JS.gt (priceChangePercent coin) 0 then "+" else "")
        (priceChangePercent coin) (volume24h coin) rsiColor (rsi coin).

Fixpoint rowsFrom (index : nat) (l : list CoinMetrics) : list Row :=
  match l with
  | [] => []
  | coin :: l' => rowOf index coin :: rowsFrom (S index) l'
  end.

Section Dashboard.
(** The markup of one row ([toLocaleString] and [toFixed] included) and of
    the page around the rows are text templates of the host. *)
Variable row_html : Row -> string.
Variable page_html : string -> string -> string.

Definition render (sorted : list CoinMetrics) (sortBy : string) : string :=
  page_html sortBy (String.concat "" (map row_html (rowsFrom 0 sorted))).

Definition generateDashboard (metrics : list CoinMetrics) (sortBy : string)
    : string :=
  render (sortedMetrics metrics sortBy) sortBy.

(** *** The same function on a heap of objects and arrays *)

Definition loc := positive.

Record heap := mkHeap {
  objects : gmap loc CoinMetrics;
  arrays : gmap loc (list loc)
}.

Definition blank : CoinMetrics := mkMetrics "" "" nan nan nan nan nan.

(** Reading the record behind a reference. *)
Definition deref (h : heap) (r : loc) : CoinMetrics :=
  default blank (objects h !! r).

(** [a.sort (comparefn)] sorts the array [a] in place. *)
Definition sort_in_place (h : heap) (a : loc)
    (comparefn : CoinMetrics -> CoinMetrics -> JS.number) : heap :=
  match arrays h !! a with
  | Some elems =>
      mkHeap (objects h)
             (<[a := JS.sort (fun x y => comparefn (deref h x) (deref h y)) elems]>
                (arrays h))
  | None => h
  end.

(** [metrics] is a reference to the caller's array.  [[...metrics]]
    allocates a new array with the same element references; the result is
    the page and the heap after the call, or [None] when [metrics] is not
    an array of the heap. *)
Definition generateDashboard_heap (h : heap) (metrics : loc) (sortBy : string)
    : option (string * heap) :=
  match arrays h !! metrics with
  | None => None
  | Some elems =>
      let sortedMetrics := fresh (dom (arrays h)) in
      let h1 := mkHeap (objects h) (<[sortedMetrics := elems]> (arrays h)) in
      let h2 :=
        if String.eqb sortBy "volume" then sort_in_place h1 sortedMetrics by_volume
        else if String.eqb sortBy "rsi" then sort_in_place h1 sortedMetrics by_rsi
        else if String.eqb sortBy "change" then sort_in_place h1 sortedMetrics by_change
        else h1 in
      let shown := default [] (arrays h2 !! sortedMetrics) in
      Some (render (map (deref h2) shown) sortBy, h2)
  end.
End Dashboard.

(* ===================================================================== *)
(** ** Binary64: the real-number reading of [SpecFloat] *)
(* ===================================================================== *)

Module B64.
Local Open Scope Z_scope.

(** Powers of two with integer exponents. *)
Definition bpow (e : Z) : R := powerRZ 2 e.
Arguments bpow : simpl never.

(** Whether bits that were shifted out, or the input itself, were inexact. *)
Definition inexact (mrs : shr_record) : bool := shr_r mrs || shr_s mrs.

(** [mrs] at exponent [e] represents the real [v] truncated. *)
Definition approx (mrs : shr_record) (e : Z) (v : R) : Prop :=
  0 <= shr_m mrs /\
  (IZR (shr_m mrs) * bpow e <= v < (IZR (shr_m mrs) + 1) * bpow e)%R /\
  (inexact mrs = false -> v = IZR (shr_m mrs) * bpow e)%R /\
  (inexact mrs = true -> IZR (shr_m mrs) * bpow e < v)%R.

(** The meaning of a location. *)
Definition located (m : Z) (e : Z) (l : location) (v : R) : Prop :=
  match l with
  | loc_Exact => v = (IZR m * bpow e)%R
  | loc_Inexact _ => (IZR m * bpow e < v < (IZR m + 1) * bpow e)%R
  end.

(** What a rounded result is, for the real [x] it stands for: an infinity
    stands for a real of at least [2^1024]. *)
Definition rounds_to (s : bool) (f : spec_float) (x : R) : Prop :=
  match f with
  | S754_zero s' => s' = s /\ x = 0%R
  | S754_infinity s' => s' = s /\ (bpow 1024 <= x)%R
  | S754_finite s' mr er => s' = s /\ (IZR (Zpos mr) * bpow er)%R = x
  | S754_nan => False
  end.

(** The real value of a finite number; [0] for the others. *)
Definition SF2R (f : spec_float) : R :=
  match f with
  | S754_finite s m e => (IZR (cond_Zopp s (Zpos m)) * bpow e)%R
  | _ => 0%R
  end.

(** Zeros and finite numbers. *)
Definition SFfinite (f : spec_float) : bool :=
  match f with
  | S754_finite _ _ _ | S754_zero _ => true
  | _ => false
  end.

(** [+0], the positive finite numbers and [+Infinity]. *)
Definition SFnonneg (f : spec_float) : bool :=
  match f with
  | S754_zero false | S754_infinity false | S754_finite false _ _ => true
  | _ => false
  end.

(** A non-negative finite number of value at most [hi]. *)
Definition SFwithin (hi : R) (f : spec_float) : Prop :=
  SFfinite f = true /\ SFnonneg f = true /\ (SF2R f <= hi)%R.

(** A non-negative number, or [NaN]. *)
Definition SFnonneg_or_nan (f : spec_float) : Prop :=
  SFnonneg f = true \/ f = S754_nan.

End B64.

(* ===================================================================== *)
(** ** The specification's reading of the RSI, and example data *)
(* ===================================================================== *)

(** One pass of the loop body of [calculateRSI], as a function of the price
    change. *)
Definition rsi_step (acc : JS.number * JS.number) (change : JS.number)
    : JS.number * JS.number :=
  if JS.gt change 0 then (fst acc + change, snd acc)
  else (fst acc, snd acc + JS.Math_abs change).

(** The specification's words: the changes between consecutive pairs of the
    oldest-first prices. *)
Fixpoint consecutive_changes (oldest : list JS.number) : list JS.number :=
  match oldest with
  | [] => []
  | a :: rest =>
      match rest with
      | [] => []
      | b :: _ => (b - a) :: consecutive_changes rest
      end
  end.

(** The first [period] price changes of a newest-first series. *)
Definition first_changes (candles : list CandleData) (period : nat)
    : list JS.number :=
  firstn period (consecutive_changes (rev (map trade_price candles))).

(** [gains] accumulates the positive changes. *)
Definition spec_gains (changes : list JS.number) : JS.number :=
  fold_left (fun g c => if JS.gt c 0 then g + c else g) changes 0.

(** [losses] accumulates the absolute values of the negative changes. *)
Definition spec_losses (changes : list JS.number) : JS.number :=
  fold_left (fun l c => if JS.lt c 0 then l + JS.Math_abs c else l) changes 0.

Definition spec_avgLoss (candles : list CandleData) (period : nat) : JS.number :=
  spec_losses (first_changes candles period) / JS.of_nat period.

(** [round ((100 - 100 / (1 + avgGain / avgLoss)) * 100) / 100] *)
Definition spec_RSI (candles : list CandleData) (period : nat) : JS.number :=
  let changes := first_changes candles period in
  let avgGain := spec_gains changes / JS.of_nat period in
  let avgLoss := spec_losses changes / JS.of_nat period in
  JS.Math_round ((100 - 100 / (1 + avgGain / avgLoss)) * 100) / 100.

(** A value in the closed interval [[0, 100]]. *)
Definition in_0_100 (x : JS.number) : bool := (0 <=? x) && (x <=? 100).

(** Example data: a daily candle that closed at [p], and a newest-first
    series of such candles. *)
Definition candle_at (p : JS.number) : CandleData :=
  mkCandle "KRW-BTC" "" "" p p p p 0 0 0.

Definition series (prices : list JS.number) : list CandleData :=
  map candle_at prices.

(** The smallest positive number, [2^-1074]. *)
Definition min_value : JS.number := 0x1p-1074.

(** Fourteen unchanged days after one drop of [min_value]. *)
Definition tiny_drop : list CandleData :=
  series [0; 0; 0; 0; 0; 0; 0; 0; 0; 0; 0; 0; 0; 0; min_value].

(** The end-to-end example of the specification, newest first. *)
Definition example_prices : list JS.number :=
  [105; 100; 98; 102; 99; 97; 101; 103; 96; 94; 100; 102; 98; 95; 93].

Definition one_day : list CandleData := series [1].
Definition two_days : list CandleData := series [105; 100].

(** Prices that rose from 1 to 3, newest first. *)
Definition three_rising : list CandleData := series [3; 2; 1].

(** The values of [avgGain] and [avgLoss] (lines 55 and 56) after the loop
    of [calculateRSI]. *)
Definition averages (candles : list CandleData) (period : nat)
    : JS.number * JS.number :=
  let prices := rev (map trade_price candles) in
  let '(gains, losses) := rsi_loop prices period 1 0 0 in
  (gains / JS.of_nat period, losses / JS.of_nat period).

(** The degenerate inputs: the loop runs ([period + 1] observations or more)
    and the average loss is [NaN], or both averages are infinite. *)
Definition degenerate (candles : list CandleData) (period : nat) : bool :=
  let '(avgGain, avgLoss) := averages candles period in
  negb (length candles <? period + 1)%nat
  && (is_nan avgLoss || (is_infinity avgGain && is_infinity avgLoss)).

(** A price that went from 0 to [Infinity] and back to 0. *)
Definition overflowing : list CandleData := series [0; infinity; 0].

(* ===================================================================== *)
(** ** Properties of the aggregator and the dashboard, and example data *)
(* ===================================================================== *)

(** The percent change is guarded against a previous price of zero: a
    record built from such candles does not hold the non-finite outcome of a
    division by zero. *)
Definition percent_change_guarded : Prop :=
  forall (up : Upstream) (m : MarketInfo) (c0 c1 : CandleData)
         (rest : list CandleData) (r : CoinMetrics),
    fetch_candles up (candles_endpoint (info_market m)) = Fulfilled (c0 :: c1 :: rest) ->
    JS.strict_eq (trade_price c1) 0 = true ->
    marketMetrics up m = Some r ->
    is_finite (priceChangePercent r) = true.

(** A list in non-increasing order of [key], in the sense of [<=] on
    numbers. *)
Definition descending (key : CoinMetrics -> JS.number) (l : list CoinMetrics)
    : Prop :=
  Sorted (fun a b => (key b <=? key a) = true) l.

Definition no_NaN (key : CoinMetrics -> JS.number) (l : list CoinMetrics)
    : Prop :=
  Forall (fun r => is_nan (key r) = false) l.

(** The records of the markets other than [m]. *)
Definition without_market (m : string) (l : list CoinMetrics) : list CoinMetrics :=
  List.filter (fun r => negb (String.eqb (market r) m)) l.

(** An upstream with four markets: one that is not a KRW market, one whose
    price was zero the day before, one with three candles, one with a
    single candle; every other request fails. *)
Definition btc : MarketInfo := mkMarket "KRW-BTC" "Bitcoin" "Bitcoin".
Definition eth : MarketInfo := mkMarket "KRW-ETH" "Ethereum" "Ethereum".
Definition xrp : MarketInfo := mkMarket "KRW-XRP" "Ripple" "Ripple".
Definition ada : MarketInfo := mkMarket "KRW-ADA" "Ada" "Ada".

Definition example_markets : list MarketInfo :=
  [mkMarket "BTC-ETH" "Ethereum" "Ethereum"; btc; eth; xrp; ada].

Definition example_candles (endpoint : string) : outcome (list CandleData) :=
  if String.eqb endpoint (candles_endpoint "KRW-BTC") then Fulfilled (series [50; 0])
  else if String.eqb endpoint (candles_endpoint "KRW-ETH") then Fulfilled three_rising
  else if String.eqb endpoint (candles_endpoint "KRW-XRP") then Fulfilled one_day
  else Rejected "Upbit API: 404".

Definition example_upstream : Upstream :=
  mkUpstream (fun _ => Fulfilled example_markets) example_candles.

(** The same upstream when the request for KRW-ADA succeeds. *)
Definition example_upstream_ok : Upstream :=
  mkUpstream (fun _ => Fulfilled example_markets)
    (fun endpoint =>
       if String.eqb endpoint (candles_endpoint "KRW-ADA") then Fulfilled three_rising
       else example_candles endpoint).

(** Two records; the percent change of the second is [NaN], as for a market
    whose price was zero on both days. *)
Definition steady : CoinMetrics := mkMetrics "KRW-ETH" "Ethereum" 3 10 100 1 50.
Definition zero_priced : CoinMetrics := mkMetrics "KRW-AAA" "Aaa" 0 5 100 0 nan.
Definition busy : CoinMetrics := mkMetrics "KRW-BTC" "Bitcoin" 50 70 20 (-2) (-4).

(** A heap with one array of two records. *)
Definition example_heap : heap :=
  mkHeap (<[1%positive := steady]> (<[2%positive := busy]> ∅))
         (<[3%positive := [1%positive; 2%positive]]> ∅).

(* ===================================================================== *)
(** ** [fetchUpbitAPI] and the request handler *)
(* ===================================================================== *)

(** What [fetch] resolves to, as far as [fetchUpbitAPI] reads it:
    [response.ok], [response.status] and the outcome of
    [response.json ()]. *)
Record HttpResponse (A : Type) := mkHttpResponse {
  ok : bool;
  status : nat;
  json : outcome A
}.
Arguments mkHttpResponse {A} ok status json.
Arguments ok {A} h.
Arguments status {A} h.
Arguments json {A} h.

(** The decimal text of a status code in a template literal. *)
Definition decimal (n : nat) : string := NilEmpty.string_of_uint (Nat.to_uint n).

(** [fetchUpbitAPI (endpoint)] over a transport [fetch]; the request headers
    are not modelled. *)
Definition fetchUpbitAPI {A : Type} (fetch : string -> outcome (HttpResponse A))
    (endpoint : string) : outcome A :=
  match fetch ("https://api.upbit.com" ++ endpoint) with
  | Rejected e => Rejected e
  | Fulfilled response =>
      if ok response then json response
      else Rejected ("Upbit API 오류: " ++ decimal (status response))
  end.

(** The network, with one typed view per call site of [fetchUpbitAPI]. *)
Record Transport := mkTransport {
  http_markets : string -> outcome (HttpResponse (list MarketInfo));
  http_candles : string -> outcome (HttpResponse (list CandleData))
}.

Definition upstream_of (t : Transport) : Upstream :=
  mkUpstream (fetchUpbitAPI (http_markets t)) (fetchUpbitAPI (http_candles t)).

(** The parts of [new URL (request.url)] that the handler reads. *)
Record URL := mkURL {
  pathname : string;
  searchParams : list (string * string)
}.

(** [searchParams.get (name)]: the first value of [name], or [null]. *)
Fixpoint searchParams_get (params : list (string * string)) (name : string)
    : option string :=
  match params with
  | [] => None
  | (k, v) :: rest => if String.eqb k name then Some v else searchParams_get rest name
  end.

Record Response := mkResponse {
  response_body : string;
  response_status : nat;
  response_headers : list (string * string)
}.

(** [url.searchParams.get ('sort') || 'volume']: [null] and the empty string
    are falsy. *)
Definition sort_parameter (url : URL) : string :=
  match searchParams_get (searchParams url) "sort" with
  | None => "volume"
  | Some s => if String.eqb s "" then "volume" else s
  end.

(** The [catch] block of the handler; every value thrown in this program is
    an [Error], whose message is shown. *)
Definition error_response (message : string) : Response :=
  mkResponse ("오류 발생: " ++ message) 500
             [("Content-Type", "text/plain; charset=utf-8")].

Section Handler.
(** [JSON.stringify] and the two text templates of the page. *)
Variable stringify : list CoinMetrics -> string.
Variable row_html : Row -> string.
Variable page_html : string -> string -> string.

(** The [fetch] method of the default export.  [url] is the outcome of
    [new URL (request.url)], which is inside the [try] block.  The records
    are those of the typed upstream, on which the templates of
    [generateDashboard] do not throw; a decoded body whose fields are
    missing, for which [toLocaleString] throws and the [catch] block
    answers, is outside this model. *)
Definition handler (up : Upstream) (url : outcome URL) : Response :=
  match url with
  | Rejected e => error_response e
  | Fulfilled url =>
      let sortBy := sort_parameter url in
      if String.eqb (pathname url) "/api/metrics" then
        match getCoinMetrics up with
        | Rejected e => error_response e
        | Fulfilled metrics =>
            mkResponse (stringify metrics) 200
                       [("Content-Type", "application/json");
                        ("Access-Control-Allow-Origin", "*")]
        end
      else
        match getCoinMetrics up with
        | Rejected e => error_response e
        | Fulfilled metrics =>
            mkResponse (generateDashboard row_html page_html metrics sortBy) 200
                       [("Content-Type", "text/html; charset=utf-8")]
        end
  end.
End Handler.

(** A transport that answers the market list and then answers every candle
    request with status 429. *)
Definition throttled : Transport :=
  mkTransport
    (fun _ => Fulfilled (mkHttpResponse true 200 (Fulfilled example_markets)))
    (fun _ => Fulfilled (mkHttpResponse false 429 (Rejected "unused"))).

(** A transport whose market list answers with status 503. *)
Definition unavailable : Transport :=
  mkTransport
    (fun _ => Fulfilled (mkHttpResponse false 503 (Rejected "unused")))
    (fun _ => Rejected "unused").

(** Prices that fell from 3 to 1, newest first. *)
Definition three_falling : list CandleData := series [1; 2; 3].

(** Two days at the same price, and two days on which the price rose. *)
Definition flat_days : list CandleData := series [7; 7].
Definition rising_days : list CandleData := series [3; 2].

(* ===================================================================== *)
(** * Binary64 arithmetic: rounding, order and bounds *)
(* ===================================================================== *)

Module B64Facts.
Import B64.
Local Open Scope Z_scope.

Lemma bpow_pos e : (0 < bpow e)%R.
Proof. apply powerRZ_lt; lra. Qed.

Lemma bpow_add a b : bpow (a + b) = (bpow a * bpow b)%R.
Proof. apply powerRZ_add; lra. Qed.

Lemma bpow_0 : bpow 0 = 1%R.
Proof. reflexivity. Qed.

Lemma bpow_1 : bpow 1 = 2%R.
Proof. unfold bpow. simpl. lra. Qed.

Lemma bpow_succ a : bpow (a + 1) = (2 * bpow a)%R.
Proof. rewrite bpow_add, bpow_1. lra. Qed.

Lemma bpow_le a b : a <= b -> (bpow a <= bpow b)%R.
Proof.
  intros H. replace b with (a + (b - a)) by lia.
  rewrite bpow_add.
  assert (Hp : 0 <= b - a) by lia.
  revert Hp. generalize (b - a). intros k Hk.
  pattern k. apply natlike_ind; [ | | exact Hk].
  - rewrite bpow_0. lra.
  - intros x Hx IH. unfold Z.succ. rewrite bpow_succ.
    pose proof (bpow_pos a). pose proof (bpow_pos x). nra.
Qed.

Lemma bpow_lt a b : a < b -> (bpow a < bpow b)%R.
Proof.
  intros H. assert (H1 : a + 1 <= b) by lia.
  apply bpow_le in H1. rewrite bpow_succ in H1.
  pose proof (bpow_pos a). lra.
Qed.

Lemma bpow_IZR k : 0 <= k -> bpow k = IZR (2 ^ k).
Proof.
  intros Hk. pattern k. apply natlike_ind; [ | | exact Hk].
  - reflexivity.
  - intros x Hx IH. unfold Z.succ. rewrite bpow_succ, IH.
    rewrite Z.pow_add_r by lia. rewrite <- mult_IZR. f_equal. lia.
Qed.

Lemma digits2_pos_bounds p :
  2 ^ (Zpos (digits2_pos p) - 1) <= Zpos p < 2 ^ Zpos (digits2_pos p).
Proof.
  induction p as [p IH | p IH | ]; simpl digits2_pos.
  - rewrite Pos2Z.inj_succ. replace (Z.succ (Zpos (digits2_pos p)) - 1) with (Z.succ (Zpos (digits2_pos p) - 1)) by lia.
    rewrite !Z.pow_succ_r by lia. lia.
  - rewrite Pos2Z.inj_succ. replace (Z.succ (Zpos (digits2_pos p)) - 1) with (Z.succ (Zpos (digits2_pos p) - 1)) by lia.
    rewrite !Z.pow_succ_r by lia. lia.
  - simpl. lia.
Qed.

Lemma digits_bpow p :
  (bpow (Zpos (digits2_pos p) - 1) <= IZR (Zpos p) < bpow (Zpos (digits2_pos p)))%R.
Proof.
  destruct (digits2_pos_bounds p) as [H1 H2].
  rewrite !bpow_IZR by lia. split; [apply IZR_le | apply IZR_lt]; assumption.
Qed.

Lemma IZR_xO p : IZR (Zpos p~0) = (2 * IZR (Zpos p))%R.
Proof. rewrite Pos2Z.inj_xO, mult_IZR. reflexivity. Qed.

Lemma IZR_xI p : IZR (Zpos p~1) = (2 * IZR (Zpos p) + 1)%R.
Proof. rewrite Pos2Z.inj_xI, plus_IZR, mult_IZR. reflexivity. Qed.

Lemma approx_shr_1 mrs e v : approx mrs e v -> approx (shr_1 mrs) (e + 1) v.
Proof.
  destruct mrs as [m r s]. unfold approx, inexact.
  cbn [shr_m shr_r shr_s]. intros (Hm & Hv & Hex & Hin).
  rewrite bpow_succ. pose proof (bpow_pos e) as Hp.
  destruct m as [ | [p | p | ] | p]; try lia;
    cbn [shr_1 shr_m shr_r shr_s orb].
  - revert Hv Hex Hin. generalize (bpow e) Hp. intros b Hb Hv Hex Hin.
    split; [lia | ]. split; [ split; nra | ].
    split; intros H; [rewrite Hex by exact H; ring | specialize (Hin H); nra].
  - rewrite IZR_xI in Hv, Hex, Hin.
    revert Hv Hex Hin. generalize (IZR (Zpos p)) (bpow e) Hp. intros x b Hb Hv Hex Hin.
    split; [lia | ]. split; [ split; nra | ]. split; [discriminate | intros _; nra].
  - rewrite IZR_xO in Hv, Hex, Hin.
    revert Hv Hex Hin. generalize (IZR (Zpos p)) (bpow e) Hp. intros x b Hb Hv Hex Hin.
    split; [lia | ]. split; [ split; nra | ].
    split; intros H; [rewrite Hex by exact H; ring | specialize (Hin H); nra].
  - revert Hv Hex Hin. generalize (bpow e) Hp. intros b Hb Hv Hex Hin.
    split; [lia | ]. split; [ split; nra | ]. split; [discriminate | intros _; nra].
Qed.

Lemma approx_iter_pos p : forall mrs e v,
  approx mrs e v -> approx (SpecFloat.iter_pos shr_1 p mrs) (e + Zpos p) v.
Proof.
  induction p as [p IH | p IH | ]; intros mrs e v H; cbn [SpecFloat.iter_pos].
  - replace (e + Zpos p~1) with (((e + 1) + Zpos p) + Zpos p) by lia.
    apply IH, IH, approx_shr_1, H.
  - replace (e + Zpos p~0) with ((e + Zpos p) + Zpos p) by lia.
    apply IH, IH, H.
  - apply approx_shr_1, H.
Qed.

Lemma approx_shr mrs e n v :
  approx mrs e v -> 0 <= n ->
  approx (fst (shr mrs e n)) (e + n) v /\ snd (shr mrs e n) = e + n.
Proof.
  intros H Hn. destruct n as [ | p | p]; simpl; try lia.
  - rewrite Z.add_0_r. auto.
  - split; [apply approx_iter_pos, H | reflexivity].
Qed.

Lemma approx_of_loc m e l v :
  0 <= m -> located m e l v -> approx (shr_record_of_loc m l) e v.
Proof.
  intros Hm Hl. pose proof (bpow_pos e).
  destruct l as [ | [ | | ]]; unfold approx, inexact, located in *;
    cbn [shr_record_of_loc shr_m shr_r shr_s orb];
    (split; [exact Hm | ]); (split; [lra | ]);
    (split; [intros; first [assumption | discriminate] | intros; first [discriminate | lra]]).
Qed.

Lemma round_nearest_even_cases mrs :
  let M := shr_m mrs in
  let M' := round_nearest_even M (loc_of_shr_record mrs) in
  M' = M \/ (M' = M + 1 /\ inexact mrs = true).
Proof.
  destruct mrs as [m [|] [|]]; unfold inexact; simpl; auto.
  destruct (Z.even m); auto.
Qed.

Lemma fexp_eq z : fexp prec emax z = Z.max (z - 53) (-1074).
Proof. reflexivity. Qed.

Lemma Zdigits2_nonneg m : 0 <= Zdigits2 m.
Proof. destruct m; simpl; lia. Qed.

Lemma Zdigits2_bpow m : 0 < m ->
  (bpow (Zdigits2 m - 1) <= IZR m < bpow (Zdigits2 m))%R.
Proof. destruct m as [ | p | p]; try lia. intros _. apply digits_bpow. Qed.

Lemma Zdigits2_le m k : 0 <= m < 2 ^ k -> 0 <= k -> Zdigits2 m <= k.
Proof.
  intros [H0 H1] Hk. destruct m as [ | p | p]; simpl; try lia.
  destruct (digits2_pos_bounds p) as [H2 _].
  destruct (Z_le_gt_dec (Zpos (digits2_pos p)) k) as [ | Hgt]; [assumption | exfalso].
  assert (2 ^ k <= 2 ^ (Zpos (digits2_pos p) - 1)) by (apply Z.pow_le_mono_r; lia).
  lia.
Qed.

Lemma IZR_succ_le_bpow m : 0 <= m -> (IZR m + 1 <= bpow (Zdigits2 m))%R.
Proof.
  intros Hm. destruct m as [ | p | p]; try lia.
  - cbn [Zdigits2]. rewrite bpow_0. lra.
  - cbn [Zdigits2]. destruct (digits2_pos_bounds p) as [_ H].
    rewrite bpow_IZR by lia. rewrite <- plus_IZR. apply IZR_le. lia.
Qed.

Lemma shr_nonpos mrs e n : n <= 0 -> shr mrs e n = (mrs, e).
Proof. destruct n; simpl; intros; try reflexivity; lia. Qed.

Lemma second_shift M E :
  0 <= M <= 2 ^ 53 -> -1074 <= E ->
  (M < 2 ^ 53 /\
   shr_fexp prec emax M E loc_Exact = (Build_shr_record M false false, E)) \/
  (M = 2 ^ 53 /\
   shr_fexp prec emax M E loc_Exact = (Build_shr_record (2 ^ 52) false false, E + 1)).
Proof.
  intros [H0 H1] HE. destruct (Z.eq_dec M (2 ^ 53)) as [-> | Hne].
  - right. split; [reflexivity | ].
    unfold shr_fexp. rewrite fexp_eq.
    replace (Zdigits2 (2 ^ 53)) with 54 by reflexivity.
    replace (Z.max (54 + E - 53) (-1074) - E) with 1 by lia.
    reflexivity.
  - left. split; [lia | ].
    unfold shr_fexp. rewrite fexp_eq.
    assert (Zdigits2 M <= 53) by (apply Zdigits2_le; lia).
    pose proof (Zdigits2_nonneg M).
    rewrite shr_nonpos by lia. reflexivity.
Qed.

Lemma located_lower m e l v : located m e l v -> (IZR m * bpow e <= v)%R.
Proof. destruct l; simpl; lra. Qed.

Lemma IZR_bpow_lt a b E :
  (IZR a * bpow E < IZR b * bpow E)%R -> a < b.
Proof.
  intros H. apply lt_IZR. pose proof (bpow_pos E). nra.
Qed.

Lemma binary_round_aux_spec s m e l v :
  0 <= m -> located m e l v -> e <= fexp prec emax (Zdigits2 m + e) ->
  exists M M' E,
    0 <= M /\ (IZR M * bpow E <= v < (IZR M + 1) * bpow E)%R /\
    (M' = M \/ (M' = M + 1 /\ (IZR M * bpow E < v)%R)) /\
    -1074 <= E /\ (-1074 < E -> 2 ^ 52 <= M) /\
    rounds_to s (binary_round_aux prec emax s m e l) (IZR M' * bpow E).
Proof.
  intros Hm Hl HP. unfold binary_round_aux.
  rewrite fexp_eq in HP.
  assert (Hn : 0 <= fexp prec emax (Zdigits2 m + e) - e) by (rewrite fexp_eq; lia).
  destruct (approx_shr _ e _ v (approx_of_loc m e l v Hm Hl) Hn) as [Ha He].
  unfold shr_fexp at 1.
  destruct (shr (shr_record_of_loc m l) e (fexp prec emax (Zdigits2 m + e) - e))
    as [mrs' e'] eqn:Hshr.
  cbn [fst snd] in Ha, He. subst e'.
  replace (e + (fexp prec emax (Zdigits2 m + e) - e))
    with (fexp prec emax (Zdigits2 m + e)) in * by lia.
  set (E := fexp prec emax (Zdigits2 m + e)) in *.
  assert (HE : E = Z.max (Zdigits2 m + e - 53) (-1074)) by reflexivity.
  destruct Ha as (HM0 & HMv & _ & HMin).
  remember (shr_m mrs') as M eqn:HMdef.
  pose proof (bpow_pos E) as HbE.
  pose proof (located_lower _ _ _ _ Hl) as Hlow.
  (* upper bound on the input *)
  assert (Hup : (v < bpow (Zdigits2 m + e))%R).
  { rewrite bpow_add. pose proof (IZR_succ_le_bpow m Hm) as Hs. pose proof (bpow_pos e) as Hpe.
    assert ((IZR m + 1) * bpow e <= bpow (Zdigits2 m) * bpow e)%R
      by (apply Rmult_le_compat_r; lra).
    destruct l; unfold located in Hl; clear - Hl H Hpe; nra. }
  assert (HM53 : M < 2 ^ 53).
  { apply lt_IZR. rewrite <- bpow_IZR by lia.
    assert (bpow (Zdigits2 m + e) <= bpow (53 + E))%R by (apply bpow_le; lia).
    rewrite (bpow_add 53 E) in H. apply Rmult_lt_reg_r with (bpow E); [exact HbE | lra]. }
  assert (HM52 : -1074 < E -> 2 ^ 52 <= M).
  { intros HEgt.
    assert (Hmpos : 0 < m).
    { destruct (Z.eq_dec m 0) as [-> | ]; [simpl in HE, HP; lia | lia]. }
    assert (HEeq : Zdigits2 m - 1 + e = 52 + E) by lia.
    pose proof (Zdigits2_bpow m Hmpos) as [Hd _].
    assert (bpow 52 * bpow E <= v)%R.
    { rewrite <- bpow_add, <- HEeq, bpow_add. pose proof (bpow_pos e). nra. }
    assert (2 ^ 52 < M + 1); [ | lia].
    apply lt_IZR. rewrite <- bpow_IZR by lia. rewrite plus_IZR.
    apply Rmult_lt_reg_r with (bpow E); [exact HbE | lra]. }
  destruct (round_nearest_even_cases mrs') as [HM' | [HM' Hinex]];
    cbv zeta in HM'; rewrite <- HMdef in HM'; rewrite HM'.
  - (* rounded down *)
    exists M, M, E. repeat split; try lia; try lra; auto.
    destruct (second_shift M E ltac:(lia) ltac:(lia)) as [[_ ->] | [? _]]; [ | lia].
    cbn [shr_m]. destruct M as [ | p | p] eqn:HMp; try lia; cbn [rounds_to].
    + split; [reflexivity | lra].
    + destruct (Z.leb_spec E (emax - prec)) as [Hle | Hgt]; cbn [rounds_to].
      * split; reflexivity.
      * split; [reflexivity | ].
        assert (HE1 : 972 <= E) by (change (emax - prec) with 971 in Hgt; lia).
        specialize (HM52 ltac:(lia)).
        apply IZR_le in HM52. rewrite <- bpow_IZR in HM52 by lia.
        assert (bpow 972 <= bpow E)%R by (apply bpow_le; lia).
        change 1024 with (52 + 972). rewrite bpow_add.
        pose proof (bpow_pos 52). pose proof (bpow_pos 972). nra.
  - (* rounded up *)
    exists M, (M + 1), E. specialize (HMin Hinex).
    repeat split; try lia; try lra; auto.
    destruct (second_shift (M + 1) E ltac:(lia) ltac:(lia)) as [[Hlt ->] | [Heq ->]].
    + cbn [shr_m]. destruct (M + 1) as [ | p | p] eqn:HMp; try lia; cbn [rounds_to].
      destruct (Z.leb_spec E (emax - prec)) as [Hle | Hgt]; cbn [rounds_to].
      * split; reflexivity.
      * split; [reflexivity | ].
        assert (HE1 : 972 <= E) by (change (emax - prec) with 971 in Hgt; lia).
        specialize (HM52 ltac:(lia)).
        assert (HM52' : 2 ^ 52 <= Zpos p) by lia.
        apply IZR_le in HM52'. rewrite <- bpow_IZR in HM52' by lia.
        assert (bpow 972 <= bpow E)%R by (apply bpow_le; lia).
        change 1024 with (52 + 972). rewrite bpow_add.
        pose proof (bpow_pos 52). pose proof (bpow_pos 972). nra.
    + cbn [shr_m]. rewrite Heq.
      change (2 ^ 52) with (Zpos (2 ^ 52)%positive). cbv iota.
      assert (Hval : (IZR (Zpos (2 ^ 52)%positive) * bpow (E + 1) = IZR (2 ^ 53) * bpow E)%R).
      { rewrite bpow_succ. change (Zpos (2 ^ 52)%positive) with (2 ^ 52).
        rewrite <- !bpow_IZR by lia. change 53 with (52 + 1). rewrite bpow_succ. ring. }
      destruct (Z.leb_spec (E + 1) (emax - prec)) as [Hle | Hgt]; cbn [rounds_to].
      * split; [reflexivity | exact Hval].
      * split; [reflexivity | ].
        assert (HE1 : 971 <= E) by (change (emax - prec) with 971 in Hgt; lia).
        rewrite <- bpow_IZR by lia.
        assert (bpow 971 <= bpow E)%R by (apply bpow_le; lia).
        change 1024 with (53 + 971). rewrite bpow_add.
        pose proof (bpow_pos 53). pose proof (bpow_pos 971). nra.
Qed.

Lemma bounded_bounds m e :
  SpecFloat.bounded prec emax m e = true ->
  -1074 <= e <= 971 /\ Zpos m < 2 ^ 53 /\ (-1074 < e -> 2 ^ 52 <= Zpos m).
Proof.
  unfold SpecFloat.bounded, canonical_mantissa. rewrite fexp_eq.
  intros H. apply andb_prop in H. destruct H as [H1 H2].
  apply Z.eqb_eq in H1. apply Z.leb_le in H2. change (emax - prec) with 971 in H2.
  destruct (digits2_pos_bounds m) as [Hlo Hhi].
  assert (Hd : Zpos (digits2_pos m) <= 53) by lia.
  split; [lia | ]. split.
  - assert (2 ^ Zpos (digits2_pos m) <= 2 ^ 53) by (apply Z.pow_le_mono_r; lia). lia.
  - intros He. assert (Heq : Zpos (digits2_pos m) = 53) by lia.
    rewrite Heq in Hlo. exact Hlo.
Qed.

Lemma bounded_real m e :
  SpecFloat.bounded prec emax m e = true ->
  (IZR (Zpos m) * bpow e < bpow 1024)%R /\
  (bpow (-1074) <= IZR (Zpos m) * bpow e)%R.
Proof.
  intros H. destruct (bounded_bounds m e H) as (He & Hm & _).
  pose proof (bpow_pos e) as Hpe. split.
  - apply IZR_lt in Hm. rewrite <- bpow_IZR in Hm by lia.
    assert (bpow e <= bpow 971)%R by (apply bpow_le; lia).
    change 1024 with (53 + 971). rewrite bpow_add.
    pose proof (bpow_pos 53). pose proof (bpow_pos 971).
    assert (0 < IZR (Zpos m))%R by (apply IZR_lt; lia). nra.
  - assert (bpow (-1074) <= bpow e)%R by (apply bpow_le; lia).
    assert (1 <= IZR (Zpos m))%R by (apply IZR_le; lia). nra.
Qed.

(** No valid number lies strictly between two neighbours of the grid on
    which a rounding takes place. *)
Lemma grid_step M E mb eb :
  0 <= M -> -1074 <= E -> (-1074 < E -> 2 ^ 52 <= M) ->
  SpecFloat.bounded prec emax mb eb = true ->
  (IZR M * bpow E < IZR (Zpos mb) * bpow eb)%R ->
  ((IZR M + 1) * bpow E <= IZR (Zpos mb) * bpow eb)%R.
Proof.
  intros HM HE HM52 Hb Hlt.
  destruct (bounded_bounds mb eb Hb) as (Heb & Hmb & _).
  pose proof (bpow_pos E) as HpE.
  destruct (Z_le_gt_dec E eb) as [Hle | Hgt].
  - (* the bound is on the grid *)
    replace eb with ((eb - E) + E) in Hlt |- * by lia.
    rewrite (bpow_add (eb - E) E) in Hlt |- *.
    rewrite (bpow_IZR (eb - E)) in Hlt |- * by lia.
    rewrite <- Rmult_assoc, <- mult_IZR in Hlt |- *.
    assert (M < Zpos mb * 2 ^ (eb - E)).
    { apply lt_IZR. apply Rmult_lt_reg_r with (bpow E); assumption. }
    rewrite <- plus_IZR. apply Rmult_le_compat_r; [lra | ]. apply IZR_le. lia.
  - (* the bound is below the grid *)
    exfalso. specialize (HM52 ltac:(lia)).
    apply IZR_le in HM52. rewrite <- bpow_IZR in HM52 by lia.
    apply IZR_lt in Hmb. rewrite <- bpow_IZR in Hmb by lia.
    assert (bpow (53 + eb) <= bpow (52 + E))%R by (apply bpow_le; lia).
    rewrite !bpow_add in H.
    pose proof (bpow_pos eb). pose proof (bpow_pos 52). pose proof (bpow_pos 53).
    assert (IZR (Zpos mb) * bpow eb < bpow 53 * bpow eb)%R
      by (apply Rmult_lt_compat_r; assumption).
    assert (bpow 52 * bpow E <= IZR M * bpow E)%R
      by (apply Rmult_le_compat_r; lra).
    lra.
Qed.

(** The order of two valid positive numbers is read off exponents first. *)
Lemma compare_pos m1 e1 m2 e2 :
  SpecFloat.bounded prec emax m1 e1 = true -> SpecFloat.bounded prec emax m2 e2 = true ->
  let x1 := (IZR (Zpos m1) * bpow e1)%R in
  let x2 := (IZR (Zpos m2) * bpow e2)%R in
  match (match Z.compare e1 e2 with
         | Lt => Lt | Gt => Gt | Eq => Pos.compare_cont Eq m1 m2 end) with
  | Lt => (x1 < x2)%R
  | Eq => x1 = x2
  | Gt => (x2 < x1)%R
  end.
Proof.
  intros H1 H2 x1 x2. subst x1 x2.
  destruct (bounded_bounds m1 e1 H1) as (He1 & Hm1 & Hn1).
  destruct (bounded_bounds m2 e2 H2) as (He2 & Hm2 & Hn2).
  assert (Hkey : forall ma ea mb eb,
             -1074 <= ea -> ea < eb -> Zpos ma < 2 ^ 53 -> 2 ^ 52 <= Zpos mb ->
             (IZR (Zpos ma) * bpow ea < IZR (Zpos mb) * bpow eb)%R).
  { intros ma ea mb eb Hea Hlt Hma Hmb.
    apply IZR_lt in Hma. rewrite <- bpow_IZR in Hma by lia.
    apply IZR_le in Hmb. rewrite <- bpow_IZR in Hmb by lia.
    assert (bpow (53 + ea) <= bpow (52 + eb))%R by (apply bpow_le; lia).
    rewrite !bpow_add in H.
    pose proof (bpow_pos ea). pose proof (bpow_pos eb).
    assert (IZR (Zpos ma) * bpow ea < bpow 53 * bpow ea)%R
      by (apply Rmult_lt_compat_r; assumption).
    assert (bpow 52 * bpow eb <= IZR (Zpos mb) * bpow eb)%R
      by (apply Rmult_le_compat_r; lra).
    lra. }
  destruct (Z.compare_spec e1 e2) as [Heq | Hlt | Hgt].
  - subst e2. fold (Pos.compare m1 m2).
    pose proof (bpow_pos e1).
    destruct (Pos.compare_spec m1 m2) as [Hm | Hm | Hm].
    + subst. reflexivity.
    + apply Rmult_lt_compat_r; [assumption | apply IZR_lt; lia].
    + apply Rmult_lt_compat_r; [assumption | apply IZR_lt; lia].
  - apply Hkey; lia.
  - apply Hkey; lia.
Qed.

Lemma SF2R_finite_pos m e : (0 < SF2R (S754_finite false m e))%R.
Proof.
  simpl. apply Rmult_lt_0_compat; [apply IZR_lt; lia | apply bpow_pos].
Qed.

Lemma SF2R_finite_neg m e : (SF2R (S754_finite true m e) < 0)%R.
Proof.
  cbn [SF2R cond_Zopp]. change (- Zpos m) with (Zneg m).
  assert (IZR (Zneg m) < 0)%R by (apply IZR_lt; lia).
  pose proof (bpow_pos e). nra.
Qed.

(** [SFcompare] on valid finite numbers is the order of their values. *)
Lemma SFcompare_finite x y :
  valid_binary x = true -> valid_binary y = true ->
  SFfinite x = true -> SFfinite y = true ->
  exists c, SFcompare x y = Some c /\
    match c with
    | Lt => (SF2R x < SF2R y)%R
    | Eq => SF2R x = SF2R y
    | Gt => (SF2R y < SF2R x)%R
    end.
Proof.
  intros Vx Vy Fx Fy.
  destruct x as [sx | sx | | sx mx ex]; try discriminate;
  destruct y as [sy | sy | | sy my ey]; try discriminate.
  - exists Eq. split; reflexivity.
  - exists (if sy then Gt else Lt). split; [reflexivity | ].
    destruct sy; [apply SF2R_finite_neg | apply SF2R_finite_pos].
  - exists (if sx then Lt else Gt). split; [reflexivity | ].
    destruct sx; [apply SF2R_finite_neg | apply SF2R_finite_pos].
  - cbn [valid_binary] in Vx, Vy.
    pose proof (compare_pos mx ex my ey Vx Vy) as Hxy.
    pose proof (compare_pos my ey mx ex Vy Vx) as Hyx.
    cbv zeta in Hxy, Hyx.
    pose proof (SF2R_finite_pos mx ex) as Px. pose proof (SF2R_finite_neg mx ex) as Nx.
    pose proof (SF2R_finite_pos my ey) as Py. pose proof (SF2R_finite_neg my ey) as Ny.
    destruct sx, sy; cbn [SFcompare].
    + (* both negative *)
      eexists. split; [reflexivity | ].
      cbn [SF2R cond_Zopp]. change (- Zpos mx) with (Zneg mx). change (- Zpos my) with (Zneg my).
      assert (Ex : IZR (Zneg mx) = (- IZR (Zpos mx))%R) by (rewrite <- opp_IZR; reflexivity).
      assert (Ey : IZR (Zneg my) = (- IZR (Zpos my))%R) by (rewrite <- opp_IZR; reflexivity).
      rewrite Ex, Ey.
      destruct (Z.compare ex ey); [ | lra | lra].
      destruct (Pos.compare_cont Eq mx my); cbn [CompOpp]; lra.
    + exists Lt. split; [reflexivity | lra].
    + exists Gt. split; [reflexivity | lra].
    + eexists. split; [reflexivity | ].
      cbn [SF2R cond_Zopp].
      destruct (Z.compare ex ey); [ | lra | lra].
      destruct (Pos.compare_cont Eq mx my); lra.
Qed.

Lemma SFltb_finite x y :
  valid_binary x = true -> valid_binary y = true ->
  SFfinite x = true -> SFfinite y = true ->
  SFltb x y = true <-> (SF2R x < SF2R y)%R.
Proof.
  intros Vx Vy Fx Fy.
  destruct (SFcompare_finite x y Vx Vy Fx Fy) as (c & Hc & Hr).
  unfold SFltb. rewrite Hc. destruct c; split; intros; try discriminate; try reflexivity; lra.
Qed.

Lemma SFleb_finite x y :
  valid_binary x = true -> valid_binary y = true ->
  SFfinite x = true -> SFfinite y = true ->
  SFleb x y = true <-> (SF2R x <= SF2R y)%R.
Proof.
  intros Vx Vy Fx Fy.
  destruct (SFcompare_finite x y Vx Vy Fx Fy) as (c & Hc & Hr).
  unfold SFleb. rewrite Hc. destruct c; split; intros; try discriminate; try reflexivity; lra.
Qed.

Lemma rounds_to_nonneg f x : rounds_to false f x -> SFnonneg f = true.
Proof. destruct f as [s | s | | s m e]; simpl; intros H; try tauto; destruct H as [-> _]; reflexivity. Qed.

Lemma round_aux_upper m e l v mb eb :
  0 <= m -> located m e l v -> e <= fexp prec emax (Zdigits2 m + e) ->
  SpecFloat.bounded prec emax mb eb = true ->
  (v <= IZR (Zpos mb) * bpow eb)%R ->
  let r := binary_round_aux prec emax false m e l in
  SFfinite r = true /\ SFnonneg r = true /\ (SF2R r <= IZR (Zpos mb) * bpow eb)%R.
Proof.
  intros Hm Hl HP Hb Hv r.
  destruct (binary_round_aux_spec false m e l v Hm Hl HP)
    as (M & M' & E & HM & HMv & HM' & HE & HM52 & Hr).
  fold r in Hr. pose proof (rounds_to_nonneg _ _ Hr) as Hnn.
  assert (Hx : (IZR M' * bpow E <= IZR (Zpos mb) * bpow eb)%R).
  { destruct HM' as [-> | [-> Hlt]]; [lra | ].
    rewrite plus_IZR. apply grid_step; auto. lra. }
  destruct (bounded_real mb eb Hb) as [Hmax _].
  destruct r as [s | s | | s mr er]; cbn [rounds_to] in Hr; try tauto.
  - destruct Hr as [_ Hr]. repeat split; auto. cbn [SF2R]. lra.
  - destruct Hr as [_ Hr]. lra.
  - destruct Hr as [-> Hr]. repeat split; auto. cbn [SF2R cond_Zopp]. lra.
Qed.

Lemma round_aux_lower m e l v a :
  0 <= m -> located m e l v -> e <= fexp prec emax (Zdigits2 m + e) ->
  valid_binary a = true -> SFfinite a = true ->
  (SF2R a <= v)%R ->
  let r := binary_round_aux prec emax false m e l in
  SFnonneg r = true /\ (SFfinite r = true -> (SF2R a <= SF2R r)%R).
Proof.
  intros Hm Hl HP Va Fa Hv r.
  destruct (binary_round_aux_spec false m e l v Hm Hl HP)
    as (M & M' & E & HM & HMv & HM' & HE & HM52 & Hr).
  fold r in Hr. pose proof (rounds_to_nonneg _ _ Hr) as Hnn.
  split; [exact Hnn | ]. intros Fr.
  pose proof (bpow_pos E) as HpE.
  assert (HM'le : (IZR M * bpow E <= IZR M' * bpow E)%R).
  { destruct HM' as [-> | [-> _]]; [lra | ]. rewrite plus_IZR. nra. }
  assert (HM0 : (0 <= IZR M * bpow E)%R).
  { apply Rmult_le_pos; [apply IZR_le; lia | lra]. }
  assert (Hx : (SF2R a <= IZR M' * bpow E)%R).
  { destruct a as [sa | sa | | sa ma ea]; try discriminate.
    - cbn [SF2R]. lra.
    - destruct sa.
      + pose proof (SF2R_finite_neg ma ea). lra.
      + cbn [SF2R cond_Zopp] in Hv |- *. cbn [valid_binary] in Va.
        destruct (Rle_or_lt (IZR (Zpos ma) * bpow ea) (IZR M * bpow E)) as [Hle | Hlt]; [lra | ].
        pose proof (grid_step M E ma ea HM HE HM52 Va Hlt). lra. }
  destruct r as [s | s | | s mr er]; cbn [rounds_to] in Hr; try tauto; try discriminate.
  - destruct Hr as [_ Hr]. cbn [SF2R]. lra.
  - destruct Hr as [-> Hr]. cbn [SF2R cond_Zopp]. lra.
Qed.

(** A rounding from an exponent of at least [emin] never vanishes. *)
Lemma round_aux_nonzero s m e l v :
  0 <= m -> located m e l v -> e <= fexp prec emax (Zdigits2 m + e) ->
  (bpow (-1074) <= v)%R ->
  let r := binary_round_aux prec emax s m e l in
  (exists mr er, r = S754_finite s mr er) \/ r = S754_infinity s.
Proof.
  intros Hm Hl HP Hv r.
  destruct (binary_round_aux_spec s m e l v Hm Hl HP)
    as (M & M' & E & HM & HMv & HM' & HE & HM52 & Hr).
  fold r in Hr. pose proof (bpow_pos E) as HpE.
  assert (HMpos : 1 <= M).
  { destruct (Z.eq_dec E (-1074)) as [HEeq | HEne].
    - subst E.
      assert (0 < M + 1 - 1); [ | lia].
      apply lt_IZR. rewrite minus_IZR, plus_IZR.
      apply Rmult_lt_reg_r with (bpow (-1074)); [exact HpE | ]. lra.
    - specialize (HM52 ltac:(lia)). lia. }
  destruct r as [s' | s' | | s' mr er]; cbn [rounds_to] in Hr; try tauto.
  - exfalso. destruct Hr as [_ Hr].
    assert (1 <= IZR M')%R by (apply IZR_le; destruct HM' as [-> | [-> _]]; lia). nra.
  - right. destruct Hr as [-> _]. reflexivity.
  - left. destruct Hr as [-> _]. eauto.
Qed.

(** *** [shl_align] and [binary_round] *)
Lemma iter_xO_value m d : Zpos (Pos.iter xO m d) = Zpos m * 2 ^ Zpos d.
Proof.
  pattern d, (Pos.iter xO m d). apply Pos.iter_ind.
  - rewrite Z.pow_1_r. lia.
  - intros p a IH. rewrite Pos2Z.inj_xO, IH, Pos2Z.inj_succ, Z.pow_succ_r by lia. lia.
Qed.

Lemma iter_xO_digits m d :
  Zpos (digits2_pos (Pos.iter xO m d)) = Zpos (digits2_pos m) + Zpos d.
Proof.
  pattern d, (Pos.iter xO m d). apply Pos.iter_ind.
  - cbn [digits2_pos]. lia.
  - intros p a IH. cbn [digits2_pos]. lia.
Qed.

Lemma shl_align_spec m e e' :
  let '(mz, ez) := shl_align m e e' in
  (IZR (Zpos mz) * bpow ez = IZR (Zpos m) * bpow e)%R /\
  ((e' < e /\ ez = e' /\ Zpos (digits2_pos mz) = Zpos (digits2_pos m) + (e - e')) \/
   (e <= e' /\ mz = m /\ ez = e)).
Proof.
  unfold shl_align. destruct (e' - e) as [ | d | d] eqn:Hd.
  - split; [reflexivity | right; lia].
  - split; [reflexivity | right; lia].
  - split.
    + rewrite iter_xO_value, mult_IZR, <- bpow_IZR by lia.
      rewrite Rmult_assoc, <- bpow_add. f_equal. f_equal. lia.
    + left. rewrite iter_xO_digits. lia.
Qed.

Lemma binary_round_aux_of_round s m e :
  exists mz ez,
    binary_round prec emax s m e = binary_round_aux prec emax s (Zpos mz) ez loc_Exact /\
    located (Zpos mz) ez loc_Exact (IZR (Zpos m) * bpow e) /\
    ez <= fexp prec emax (Zdigits2 (Zpos mz) + ez).
Proof.
  unfold binary_round.
  pose proof (shl_align_spec m e (fexp prec emax (Zpos (digits2_pos m) + e))) as H.
  destruct (shl_align m e (fexp prec emax (Zpos (digits2_pos m) + e))) as [mz ez].
  exists mz, ez. destruct H as [Hv Hc]. split; [reflexivity | ].
  split; [cbn [located]; lra | ].
  cbn [Zdigits2]. rewrite fexp_eq in *.
  destruct Hc as [(H1 & H2 & H3) | (H1 & H2 & H3)].
  - rewrite H3. lia.
  - subst. lia.
Qed.

(** ** The operations on valid numbers *)
Lemma Zdigits2_upper m : 0 <= m -> m < 2 ^ Zdigits2 m.
Proof.
  intros Hm. destruct m as [ | p | p]; try lia.
  - simpl. lia.
  - cbn [Zdigits2]. apply digits2_pos_bounds.
Qed.

Lemma Zdigits2_lower k m : 0 <= k -> 2 ^ k <= m -> k + 1 <= Zdigits2 m.
Proof.
  intros Hk Hm.
  assert (0 < 2 ^ k) by (apply Z.pow_pos_nonneg; lia).
  pose proof (Zdigits2_upper m ltac:(lia)) as Hu.
  pose proof (Zdigits2_nonneg m).
  destruct (Z_lt_le_dec k (Zdigits2 m)) as [ | Hle]; [lia | exfalso].
  assert (2 ^ Zdigits2 m <= 2 ^ k) by (apply Z.pow_le_mono_r; lia). lia.
Qed.

Lemma mul_located mx ex my ey :
  SpecFloat.bounded prec emax mx ex = true ->
  SpecFloat.bounded prec emax my ey = true ->
  located (Zpos (mx * my)) (ex + ey) loc_Exact
          (IZR (Zpos mx) * bpow ex * (IZR (Zpos my) * bpow ey)) /\
  ex + ey <= fexp prec emax (Zdigits2 (Zpos (mx * my)) + (ex + ey)).
Proof.
  intros Hx Hy. split.
  - cbn [located]. rewrite Pos2Z.inj_mul, mult_IZR, bpow_add. ring.
  - unfold SpecFloat.bounded, canonical_mantissa in Hx, Hy.
    apply andb_prop in Hx, Hy. destruct Hx as [Hx _], Hy as [Hy _].
    apply Z.eqb_eq in Hx, Hy. rewrite fexp_eq in *.
    destruct (digits2_pos_bounds mx) as [Lx _].
    destruct (digits2_pos_bounds my) as [Ly _].
    assert (Hd : (Zpos (digits2_pos mx) - 1) + (Zpos (digits2_pos my) - 1) + 1
                 <= Zdigits2 (Zpos (mx * my))).
    { apply Zdigits2_lower; [lia | ].
      rewrite Z.pow_add_r by lia. rewrite Pos2Z.inj_mul.
      apply Z.mul_le_mono_nonneg; try assumption; apply Z.pow_nonneg; lia. }
    lia.
Qed.

Lemma digits_div_lower a b q r da db :
  0 < b -> a = b * q + r -> 0 <= r < b -> 0 <= q ->
  2 ^ (da - 1) <= a -> b < 2 ^ db -> 0 <= db -> da - db <= Zdigits2 q.
Proof.
  intros Hb Ha Hr Hq Hda Hdb Hdb0.
  pose proof (Zdigits2_nonneg q) as Hn.
  destruct (Z_le_gt_dec (da - db) (Zdigits2 q)) as [ | Hgt]; [assumption | exfalso].
  pose proof (Zdigits2_upper q Hq) as Hu.
  assert (Hk : 2 ^ Zdigits2 q <= 2 ^ (da - db - 1)) by (apply Z.pow_le_mono_r; lia).
  assert (Hs : 2 ^ db * 2 ^ (da - db - 1) = 2 ^ (da - 1)).
  { rewrite <- Z.pow_add_r by lia. f_equal. lia. }
  assert (0 < 2 ^ (da - db - 1)) by (apply Z.pow_pos_nonneg; lia).
  assert (b * (q + 1) <= b * 2 ^ (da - db - 1)) by (apply Z.mul_le_mono_nonneg_l; lia).
  assert (b * 2 ^ (da - db - 1) < 2 ^ db * 2 ^ (da - db - 1))
    by (apply Z.mul_lt_mono_pos_r; lia).
  lia.
Qed.

Lemma new_location_exact b r : new_location b r = loc_Exact <-> r = 0.
Proof.
  unfold new_location, new_location_even, new_location_odd.
  destruct (Z.even b); destruct (Z.eqb_spec r 0); split; intros; try discriminate; try reflexivity; try lia.
Qed.

Lemma div_located mx ex my ey :
  let '(q, e', l) := SFdiv_core_binary prec emax (Zpos mx) ex (Zpos my) ey in
  0 <= q /\
  located q e' l (IZR (Zpos mx) * bpow ex / (IZR (Zpos my) * bpow ey)) /\
  e' <= fexp prec emax (Zdigits2 q + e').
Proof.
  unfold SFdiv_core_binary. cbn [Zdigits2].
  set (d1 := Zpos (digits2_pos mx)). set (d2 := Zpos (digits2_pos my)).
  set (e' := Z.min (fexp prec emax (d1 + ex - (d2 + ey))) (ex - ey)).
  set (s := ex - ey - e').
  assert (Hs : 0 <= s) by (unfold s, e'; lia).
  set (m' := match s with Zpos _ => Z.shiftl (Zpos mx) s | 0 => Zpos mx | Zneg _ => 0 end).
  assert (Hm' : m' = Zpos mx * 2 ^ s).
  { unfold m'. destruct s as [ | p | p] eqn:Hsp; try lia.
    apply Z.shiftl_mul_pow2. lia. }
  pose proof (Z_div_mod m' (Zpos my) ltac:(lia)) as Hdiv.
  destruct (Z.div_eucl m' (Zpos my)) as [q r]. destruct Hdiv as [Hqr Hr].
  assert (H2s : 0 < 2 ^ s) by (apply Z.pow_pos_nonneg; lia).
  assert (Hq : 0 <= q) by nia.
  split; [exact Hq | ].
  assert (Hmypos : (0 < IZR (Zpos my))%R) by (apply IZR_lt; lia).
  assert (Hv : (IZR (Zpos mx) * bpow ex / (IZR (Zpos my) * bpow ey)
                = (IZR q + IZR r / IZR (Zpos my)) * bpow e')%R).
  { replace ex with (s + e' + ey) at 1 by (unfold s; lia).
    rewrite !bpow_add. rewrite (bpow_IZR s) by lia.
    pose proof (bpow_pos ey). pose proof (bpow_pos e').
    assert (Hmr : (IZR (Zpos mx) * IZR (2 ^ s) = IZR (Zpos my) * IZR q + IZR r)%R).
    { rewrite <- !mult_IZR, <- plus_IZR. f_equal. lia. }
    field_simplify_eq; [ | lra].
    replace (IZR (Zpos mx) * IZR (2 ^ s) * bpow e' * bpow ey)%R
      with ((IZR (Zpos mx) * IZR (2 ^ s)) * bpow e' * bpow ey)%R by ring.
    rewrite Hmr. ring. }
  split.
  - rewrite Hv. pose proof (bpow_pos e') as Hpe.
    destruct (new_location (Zpos my) r) as [ | c] eqn:Hloc.
    + apply new_location_exact in Hloc. subst r. cbn [located].
      unfold Rdiv. rewrite Rmult_0_l. ring.
    + assert (Hr0 : r <> 0).
      { intros ->. assert (Hex : new_location (Zpos my) 0 = loc_Exact)
          by (apply new_location_exact; reflexivity). congruence. }
      cbn [located].
      assert (0 < IZR r / IZR (Zpos my) < 1)%R.
      { assert (0 < IZR r)%R by (apply IZR_lt; lia).
        assert (IZR r < IZR (Zpos my))%R by (apply IZR_lt; lia).
        split.
        - apply Rdiv_lt_0_compat; assumption.
        - apply Rmult_lt_reg_r with (IZR (Zpos my)); [assumption | ].
          unfold Rdiv. rewrite Rmult_assoc, Rinv_l by lra. lra. }
      split; nra.
  - rewrite fexp_eq.
    assert (He'le : e' <= Z.max (d1 + ex - (d2 + ey) - 53) (-1074))
      by (unfold e'; rewrite fexp_eq; lia).
    destruct (digits2_pos_bounds mx) as [Lx _]. fold d1 in Lx.
    destruct (digits2_pos_bounds my) as [_ Uy]. fold d2 in Uy.
    assert (Hda : 2 ^ (d1 + s - 1) <= m').
    { rewrite Hm'. replace (d1 + s - 1) with ((d1 - 1) + s) by lia.
      rewrite Z.pow_add_r by (unfold d1; lia).
      apply Z.mul_le_mono_nonneg_r; lia. }
    pose proof (digits_div_lower m' (Zpos my) q r (d1 + s) d2 ltac:(lia) Hqr Hr Hq Hda Uy
                  ltac:(unfold d2; lia)) as Hdq.
    unfold s in Hdq. lia.
Qed.

Lemma shl_align_fst_value m e ez :
  ez <= e ->
  (IZR (Zpos (fst (shl_align m e ez))) * bpow ez = IZR (Zpos m) * bpow e)%R.
Proof.
  intros Hle. pose proof (shl_align_spec m e ez) as H.
  destruct (shl_align m e ez) as [mz ez']. cbn [fst].
  destruct H as [Hv [(H1 & H2 & _) | (H1 & H2 & H3)]].
  - subst ez'. exact Hv.
  - subst. replace ez with e by lia. reflexivity.
Qed.

Lemma IZR_cond_Zopp s z : IZR (cond_Zopp s z) = ((if s then -1 else 1) * IZR z)%R.
Proof. destruct s; cbn [cond_Zopp]; [rewrite opp_IZR | ]; ring. Qed.

Lemma SF2R_finite s m e :
  SF2R (S754_finite s m e) = ((if s then -1 else 1) * (IZR (Zpos m) * bpow e))%R.
Proof. cbn [SF2R]. rewrite IZR_cond_Zopp. ring. Qed.

(** The integer whose rounding is a sum or a difference of finite numbers. *)
Lemma SFadd_finite sx mx ex sy my ey :
  exists D,
    SFadd prec emax (S754_finite sx mx ex) (S754_finite sy my ey)
    = binary_normalize prec emax D (Z.min ex ey) false /\
    (IZR D * bpow (Z.min ex ey)
     = SF2R (S754_finite sx mx ex) + SF2R (S754_finite sy my ey))%R.
Proof.
  eexists. split; [reflexivity | ].
  rewrite plus_IZR, !IZR_cond_Zopp, !SF2R_finite.
  rewrite Rmult_plus_distr_r, !Rmult_assoc.
  rewrite !shl_align_fst_value by lia. reflexivity.
Qed.

Lemma SFsub_finite sx mx ex sy my ey :
  exists D,
    SFsub prec emax (S754_finite sx mx ex) (S754_finite sy my ey)
    = binary_normalize prec emax D (Z.min ex ey) false /\
    (IZR D * bpow (Z.min ex ey)
     = SF2R (S754_finite sx mx ex) - SF2R (S754_finite sy my ey))%R.
Proof.
  eexists. split; [reflexivity | ].
  rewrite minus_IZR, !IZR_cond_Zopp, !SF2R_finite.
  unfold Rminus. rewrite Rmult_plus_distr_r, Ropp_mult_distr_l, !Rmult_assoc.
  rewrite !shl_align_fst_value by lia. ring.
Qed.

Lemma binary_round_spec s m e :
  exists M M' E,
    0 <= M /\
    (IZR M * bpow E <= IZR (Zpos m) * bpow e < (IZR M + 1) * bpow E)%R /\
    (M' = M \/ (M' = M + 1 /\ (IZR M * bpow E < IZR (Zpos m) * bpow e)%R)) /\
    -1074 <= E /\ (-1074 < E -> 2 ^ 52 <= M) /\
    rounds_to s (binary_round prec emax s m e) (IZR M' * bpow E).
Proof.
  destruct (binary_round_aux_of_round s m e) as (mz & ez & -> & Hl & HP).
  apply binary_round_aux_spec; [lia | exact Hl | exact HP].
Qed.

Lemma binary_round_nonneg m e : SFnonneg (binary_round prec emax false m e) = true.
Proof.
  destruct (binary_round_spec false m e) as (M & M' & E & _ & _ & _ & _ & _ & Hr).
  eapply rounds_to_nonneg, Hr.
Qed.

Lemma binary_round_nonzero s m e :
  -1074 <= e ->
  let r := binary_round prec emax s m e in
  (exists mr er, r = S754_finite s mr er) \/ r = S754_infinity s.
Proof.
  intros He. destruct (binary_round_aux_of_round s m e) as (mz & ez & Hr & Hl & HP).
  cbv zeta. rewrite Hr.
  apply round_aux_nonzero with (v := (IZR (Zpos m) * bpow e)%R); [lia | exact Hl | exact HP | ].
  assert (bpow (-1074) <= bpow e)%R by (apply bpow_le; lia).
  assert (1 <= IZR (Zpos m))%R by (apply IZR_le; lia).
  pose proof (bpow_pos e). nra.
Qed.

Lemma normalize_upper D e mb eb :
  0 <= D -> SpecFloat.bounded prec emax mb eb = true ->
  (IZR D * bpow e <= IZR (Zpos mb) * bpow eb)%R ->
  let r := binary_normalize prec emax D e false in
  SFfinite r = true /\ SFnonneg r = true /\ (SF2R r <= IZR (Zpos mb) * bpow eb)%R.
Proof.
  intros HD Hb Hv. destruct D as [ | p | p]; try lia; cbn [binary_normalize].
  - repeat split. cbn [SF2R]. destruct (bounded_real mb eb Hb) as [_ H].
    pose proof (bpow_pos (-1074)). lra.
  - destruct (binary_round_aux_of_round false p e) as (mz & ez & -> & Hl & HP).
    apply round_aux_upper with (v := (IZR (Zpos p) * bpow e)%R); auto; lia.
Qed.

Lemma normalize_lower D e a :
  0 <= D -> valid_binary a = true -> SFfinite a = true ->
  (SF2R a <= IZR D * bpow e)%R ->
  let r := binary_normalize prec emax D e false in
  SFnonneg r = true /\ (SFfinite r = true -> (SF2R a <= SF2R r)%R).
Proof.
  intros HD Va Fa Hv. destruct D as [ | p | p]; try lia; cbn [binary_normalize].
  - split; [reflexivity | ]. intros _. cbn [SF2R]. lra.
  - destruct (binary_round_aux_of_round false p e) as (mz & ez & -> & Hl & HP).
    apply round_aux_lower with (v := (IZR (Zpos p) * bpow e)%R); auto; lia.
Qed.

(** The sign of a rounded non-zero integer is the sign of the integer. *)
Lemma normalize_sign D e :
  -1074 <= e ->
  let r := binary_normalize prec emax D e false in
  match D with
  | Z0 => r = S754_zero false
  | Zpos _ => (exists mr er, r = S754_finite false mr er) \/ r = S754_infinity false
  | Zneg _ => (exists mr er, r = S754_finite true mr er) \/ r = S754_infinity true
  end.
Proof.
  intros He. destruct D as [ | p | p]; cbn [binary_normalize].
  - reflexivity.
  - apply binary_round_nonzero, He.
  - apply binary_round_nonzero, He.
Qed.

Lemma valid_finite_emin s m e :
  valid_binary (S754_finite s m e) = true -> -1074 <= e.
Proof. cbn [valid_binary]. intros H. apply bounded_bounds in H. lia. Qed.

(** *** Addition *)
Lemma SFadd_nonneg x y :
  SFnonneg x = true -> SFnonneg y = true -> SFnonneg (SF64add x y) = true.
Proof.
  intros Hx Hy. unfold SF64add.
  destruct x as [[|] | [|] | | [|] mx ex]; try discriminate;
  destruct y as [[|] | [|] | | [|] my ey]; try discriminate; try reflexivity.
  destruct (SFadd_finite false mx ex false my ey) as (D & -> & HD).
  assert (0 < D).
  { apply lt_IZR. apply Rmult_lt_reg_r with (bpow (Z.min ex ey)); [apply bpow_pos | ].
    rewrite HD, Rmult_0_l.
    pose proof (SF2R_finite_pos mx ex). pose proof (SF2R_finite_pos my ey). lra. }
  destruct D as [ | p | p]; try lia. cbn [binary_normalize]. apply binary_round_nonneg.
Qed.

Lemma SFadd_lower x y :
  valid_binary x = true -> SFfinite x = true -> SFnonneg x = true ->
  SFnonneg y = true ->
  let t := SF64add x y in
  SFnonneg t = true /\ (SFfinite t = true -> (SF2R x <= SF2R t)%R).
Proof.
  intros Vx Fx Nx Ny t. split; [apply SFadd_nonneg; assumption | ].
  subst t. unfold SF64add.
  destruct x as [[|] | [|] | | [|] mx ex]; try discriminate;
  destruct y as [[|] | [|] | | [|] my ey]; try discriminate;
    cbn [SFadd]; intros Ft; try discriminate; try lra.
  - pose proof (SF2R_finite_pos my ey). cbn [SF2R] in *. lra.
  - destruct (SFadd_finite false mx ex false my ey) as (D & HD1 & HD).
    cbn [SFadd] in HD1. rewrite HD1 in Ft |- *.
    pose proof (SF2R_finite_pos my ey) as Py. pose proof (SF2R_finite_pos mx ex) as Px.
    assert (0 <= D).
    { apply le_IZR. apply Rmult_le_reg_r with (bpow (Z.min ex ey)); [apply bpow_pos | ].
      rewrite HD, Rmult_0_l. lra. }
    apply normalize_lower; auto. lra.
Qed.

(** Adding a number that is not [-0] never gives [-0]. *)
Lemma SFadd_not_neg_zero x y :
  valid_binary x = true -> valid_binary y = true ->
  y <> S754_zero true -> SF64add x y <> S754_zero true.
Proof.
  intros Vx Vy Hy. unfold SF64add.
  destruct x as [[|] | [|] | | sx mx ex]; destruct y as [[|] | [|] | | sy my ey];
    cbn [SFadd]; try discriminate; try congruence.
  destruct (SFadd_finite sx mx ex sy my ey) as (D & HD1 & _).
  cbn [SFadd] in HD1. rewrite HD1.
  pose proof (valid_finite_emin _ _ _ Vx). pose proof (valid_finite_emin _ _ _ Vy).
  pose proof (normalize_sign D (Z.min ex ey) ltac:(lia)) as Hs. cbv zeta in Hs.
  destruct D; [rewrite Hs; discriminate | | ];
    destruct Hs as [(mr & er & ->) | ->]; discriminate.
Qed.

(** *** Subtraction *)
Lemma SFsub_upper mx ex y :
  SpecFloat.bounded prec emax mx ex = true ->
  SFfinite y = true -> SFnonneg y = true ->
  (SF2R y <= IZR (Zpos mx) * bpow ex)%R ->
  let r := SF64sub (S754_finite false mx ex) y in
  SFfinite r = true /\ SFnonneg r = true /\ (SF2R r <= IZR (Zpos mx) * bpow ex)%R.
Proof.
  intros Vx Fy Ny Hle r. subst r. unfold SF64sub.
  destruct y as [[|] | [|] | | [|] my ey]; try discriminate; cbn [SFsub].
  - repeat split. cbn [SF2R cond_Zopp]. lra.
  - destruct (SFsub_finite false mx ex false my ey) as (D & HD1 & HD).
    cbn [SFsub] in HD1. rewrite HD1.
    pose proof (SF2R_finite_pos my ey) as Py.
    cbn [SF2R cond_Zopp] in HD, Hle, Py.
    assert (0 <= D).
    { apply le_IZR. apply Rmult_le_reg_r with (bpow (Z.min ex ey)); [apply bpow_pos | ].
      rewrite HD, Rmult_0_l. lra. }
    apply normalize_upper; auto. lra.
Qed.

(** The sign of a difference is the order of its operands. *)
Lemma SFsub_sign x y :
  valid_binary x = true -> valid_binary y = true ->
  x <> S754_nan -> y <> S754_nan ->
  SFltb (S754_zero false) (SF64sub y x) = SFltb x y.
Proof.
  intros Vx Vy Hx Hy. unfold SF64sub.
  destruct x as [sx | sx | | sx mx ex]; try congruence;
  destruct y as [sy | sy | | sy my ey]; try congruence;
    try (destruct sx, sy; reflexivity);
    try (destruct sx; reflexivity); try (destruct sy; reflexivity).
  destruct (SFsub_finite sy my ey sx mx ex) as (D & -> & HD).
  pose proof (valid_finite_emin _ _ _ Vx). pose proof (valid_finite_emin _ _ _ Vy).
  pose proof (normalize_sign D (Z.min ey ex) ltac:(lia)) as Hs. cbv zeta in Hs.
  pose proof (SFltb_finite _ _ Vx Vy eq_refl eq_refl) as Hlt.
  pose proof (bpow_pos (Z.min ey ex)) as Hp.
  destruct D as [ | p | p].
  - rewrite Hs. rewrite Rmult_0_l in HD.
    destruct (SFltb (S754_finite sx mx ex) (S754_finite sy my ey)) eqn:E; [ | reflexivity].
    destruct Hlt as [Hlt _]. specialize (Hlt eq_refl). lra.
  - assert (0 < IZR (Zpos p))%R by (apply IZR_lt; lia).
    assert (Hgt : (SF2R (S754_finite sx mx ex) < SF2R (S754_finite sy my ey))%R) by nra.
    apply Hlt in Hgt. rewrite Hgt.
    destruct Hs as [(mr & er & ->) | ->]; reflexivity.
  - assert (IZR (Zneg p) < 0)%R by (apply IZR_lt; lia).
    destruct (SFltb (S754_finite sx mx ex) (S754_finite sy my ey)) eqn:E.
    + destruct Hlt as [Hlt _]. specialize (Hlt eq_refl). nra.
    + destruct Hs as [(mr & er & ->) | ->]; reflexivity.
Qed.

(** *** Multiplication *)
Lemma SFmul_upper x y mb eb :
  valid_binary x = true -> valid_binary y = true ->
  SFfinite x = true -> SFnonneg x = true ->
  SFfinite y = true -> SFnonneg y = true ->
  SpecFloat.bounded prec emax mb eb = true ->
  (SF2R x * SF2R y <= IZR (Zpos mb) * bpow eb)%R ->
  let r := SF64mul x y in
  SFfinite r = true /\ SFnonneg r = true /\ (SF2R r <= IZR (Zpos mb) * bpow eb)%R.
Proof.
  intros Vx Vy Fx Nx Fy Ny Hb Hle r. subst r. unfold SF64mul.
  destruct (bounded_real mb eb Hb) as [_ Hbpos]. pose proof (bpow_pos (-1074)) as Hp.
  destruct x as [[|] | [|] | | [|] mx ex]; try discriminate;
  destruct y as [[|] | [|] | | [|] my ey]; try discriminate; cbn [SFmul xorb];
    try (repeat split; cbn [SF2R]; lra).
  cbn [valid_binary] in Vx, Vy. cbn [SF2R cond_Zopp] in Hle.
  destruct (mul_located mx ex my ey Vx Vy) as [Hl HP].
  apply round_aux_upper with (v := (IZR (Zpos mx) * bpow ex * (IZR (Zpos my) * bpow ey))%R);
    auto; lia.
Qed.

(** *** Division *)
Lemma SFdiv_nonneg x y :
  SFnonneg x = true -> SFnonneg y = true ->
  SFnonneg (SF64div x y) = true \/ SF64div x y = S754_nan.
Proof.
  intros Nx Ny. unfold SF64div.
  destruct x as [[|] | [|] | | [|] mx ex]; try discriminate;
  destruct y as [[|] | [|] | | [|] my ey]; try discriminate; cbn [SFdiv xorb]; auto.
  pose proof (div_located mx ex my ey) as H.
  destruct (SFdiv_core_binary prec emax (Zpos mx) ex (Zpos my) ey) as [[q e'] l].
  destruct H as (Hq & Hl & HP). left.
  destruct (binary_round_aux_spec false q e' l _ Hq Hl HP)
    as (M & M' & E & _ & _ & _ & _ & _ & Hr).
  eapply rounds_to_nonneg, Hr.
Qed.

Lemma SFdiv_upper x my ey mb eb :
  SFfinite x = true -> SFnonneg x = true ->
  SpecFloat.bounded prec emax mb eb = true ->
  (SF2R x / (IZR (Zpos my) * bpow ey) <= IZR (Zpos mb) * bpow eb)%R ->
  let r := SF64div x (S754_finite false my ey) in
  SFfinite r = true /\ SFnonneg r = true /\ (SF2R r <= IZR (Zpos mb) * bpow eb)%R.
Proof.
  intros Fx Nx Hb Hle r. subst r. unfold SF64div.
  destruct (bounded_real mb eb Hb) as [_ Hbpos]. pose proof (bpow_pos (-1074)) as Hp.
  destruct x as [[|] | [|] | | [|] mx ex]; try discriminate; cbn [SFdiv xorb].
  - repeat split. cbn [SF2R]. lra.
  - pose proof (div_located mx ex my ey) as H.
    destruct (SFdiv_core_binary prec emax (Zpos mx) ex (Zpos my) ey) as [[q e'] l].
    destruct H as (Hq & Hl & HP). cbn [SF2R cond_Zopp] in Hle.
    eapply round_aux_upper; eauto.
Qed.

(** Zero divided by a positive integer is zero. *)
Lemma SFdiv_zero_int p :
  SF64div (S754_zero false) (binary_normalize prec emax (Zpos p) 0 false)
  = S754_zero false.
Proof.
  pose proof (normalize_sign (Zpos p) 0 ltac:(lia)) as Hs. cbv zeta in Hs.
  destruct Hs as [(mr & er & ->) | ->]; reflexivity.
Qed.

Lemma normalize_int_nonneg n :
  0 <= n -> SFnonneg (binary_normalize prec emax n 0 false) = true.
Proof.
  intros Hn. destruct n as [ | p | p]; try lia; cbn [binary_normalize].
  - reflexivity.
  - apply binary_round_nonneg.
Qed.

(** *** Rounded results are valid numbers *)

Lemma first_shift m e l v :
  0 <= m -> located m e l v -> e <= fexp prec emax (Zdigits2 m + e) ->
  exists mrs E,
    shr_fexp prec emax m e l = (mrs, E) /\ approx mrs E v /\
    -1074 <= E /\ shr_m mrs < 2 ^ 53 /\ (-1074 < E -> 2 ^ 52 <= shr_m mrs).
Proof.
  intros Hm Hl HP. rewrite fexp_eq in HP.
  assert (Hn : 0 <= fexp prec emax (Zdigits2 m + e) - e) by (rewrite fexp_eq; lia).
  destruct (approx_shr _ e _ v (approx_of_loc m e l v Hm Hl) Hn) as [Ha He].
  unfold shr_fexp.
  destruct (shr (shr_record_of_loc m l) e (fexp prec emax (Zdigits2 m + e) - e))
    as [mrs E'] eqn:Hshr.
  cbn [fst snd] in Ha, He. subst E'.
  replace (e + (fexp prec emax (Zdigits2 m + e) - e))
    with (fexp prec emax (Zdigits2 m + e)) in * by lia.
  set (E := fexp prec emax (Zdigits2 m + e)) in *.
  assert (HE : E = Z.max (Zdigits2 m + e - 53) (-1074)) by reflexivity.
  exists mrs, E. split; [reflexivity | ]. split; [exact Ha | ].
  destruct Ha as (HM0 & HMv & _ & _).
  pose proof (bpow_pos E) as HbE.
  pose proof (located_lower _ _ _ _ Hl) as Hlow.
  assert (Hup : (v < bpow (Zdigits2 m + e))%R).
  { rewrite bpow_add. pose proof (IZR_succ_le_bpow m Hm) as Hs. pose proof (bpow_pos e) as Hpe.
    assert ((IZR m + 1) * bpow e <= bpow (Zdigits2 m) * bpow e)%R
      by (apply Rmult_le_compat_r; lra).
    destruct l; unfold located in Hl; clear - Hl H Hpe; nra. }
  split; [lia | ]. split.
  - apply lt_IZR. rewrite <- bpow_IZR by lia.
    assert (bpow (Zdigits2 m + e) <= bpow (53 + E))%R by (apply bpow_le; lia).
    rewrite (bpow_add 53 E) in H. apply Rmult_lt_reg_r with (bpow E); [exact HbE | lra].
  - intros HEgt.
    assert (Hmpos : 0 < m).
    { destruct (Z.eq_dec m 0) as [-> | ]; [simpl in HE, HP; lia | lia]. }
    assert (HEeq : Zdigits2 m - 1 + e = 52 + E) by lia.
    pose proof (Zdigits2_bpow m Hmpos) as [Hd _].
    assert (bpow 52 * bpow E <= v)%R.
    { rewrite <- bpow_add, <- HEeq, bpow_add. pose proof (bpow_pos e). nra. }
    assert (2 ^ 52 < shr_m mrs + 1); [ | lia].
    apply lt_IZR. rewrite <- bpow_IZR by lia. rewrite plus_IZR.
    apply Rmult_lt_reg_r with (bpow E); [exact HbE | lra].
Qed.

Lemma bounded_intro p E :
  -1074 <= E <= 971 -> Zpos p < 2 ^ 53 -> (-1074 < E -> 2 ^ 52 <= Zpos p) ->
  SpecFloat.bounded prec emax p E = true.
Proof.
  intros HE Hp Hn. unfold SpecFloat.bounded, canonical_mantissa.
  apply andb_true_intro. split; [ | apply Z.leb_le; change (emax - prec) with 971; lia].
  apply Z.eqb_eq. rewrite fexp_eq.
  assert (Hd : Zdigits2 (Zpos p) <= 53) by (apply Zdigits2_le; lia).
  cbn [Zdigits2] in Hd.
  destruct (Z.eq_dec E (-1074)) as [-> | HEne]; [lia | ].
  assert (53 <= Zdigits2 (Zpos p)) by (apply (Zdigits2_lower 52); lia).
  cbn [Zdigits2] in H. lia.
Qed.

Lemma binary_round_aux_valid s m e l v :
  0 <= m -> located m e l v -> e <= fexp prec emax (Zdigits2 m + e) ->
  valid_binary (binary_round_aux prec emax s m e l) = true.
Proof.
  intros Hm Hl HP.
  destruct (first_shift m e l v Hm Hl HP) as (mrs & E & Hs & Ha & HE & H53 & H52).
  unfold binary_round_aux. rewrite Hs.
  destruct Ha as (HM0 & _).
  set (M' := round_nearest_even (shr_m mrs) (loc_of_shr_record mrs)).
  assert (HM' : M' = shr_m mrs \/ M' = shr_m mrs + 1).
  { destruct (round_nearest_even_cases mrs) as [H | [H _]]; auto. }
  destruct (second_shift M' E ltac:(lia) HE) as [[Hlt ->] | [Heq ->]]; cbn [shr_m].
  - destruct M' as [ | p | p] eqn:HMp; try lia; [reflexivity | ].
    destruct (Z.leb_spec E (emax - prec)) as [Hle | Hgt]; [ | reflexivity].
    cbn [valid_binary]. change (emax - prec) with 971 in Hle.
    apply bounded_intro; lia.
  - change (2 ^ 52) with (Zpos (2 ^ 52)%positive). cbv iota.
    destruct (Z.leb_spec (E + 1) (emax - prec)) as [Hle | Hgt]; [ | reflexivity].
    cbn [valid_binary]. change (emax - prec) with 971 in Hle.
    apply bounded_intro; change (Zpos (2 ^ 52)%positive) with (2 ^ 52); lia.
Qed.

Lemma binary_normalize_valid D e :
  valid_binary (binary_normalize prec emax D e false) = true.
Proof.
  destruct D as [ | p | p]; cbn [binary_normalize]; [reflexivity | | ];
    destruct (binary_round_aux_of_round false p e) as (mz & ez & Hr & Hl & HP);
    destruct (binary_round_aux_of_round true p e) as (mz' & ez' & Hr' & Hl' & HP').
  - rewrite Hr. eapply binary_round_aux_valid; eauto. lia.
  - rewrite Hr'. eapply binary_round_aux_valid; eauto. lia.
Qed.

End B64Facts.

(* ===================================================================== *)
(** * JavaScript numbers: the arithmetic of the program *)
(* ===================================================================== *)

Module NumFacts.
Import B64 B64Facts.
Local Open Scope float_scope.

Lemma bpow_opp k : bpow (- k) = (/ bpow k)%R.
Proof.
  pose proof (bpow_add (- k) k) as H.
  replace (- k + k)%Z with 0%Z in H by lia. rewrite bpow_0 in H.
  pose proof (bpow_pos k).
  apply Rmult_eq_reg_r with (bpow k); [ | lra]. rewrite Rinv_l by lra. lra.
Qed.

Lemma Prim2SF_0 : Prim2SF 0 = S754_zero false.
Proof. reflexivity. Qed.

Lemma Prim2SF_1 : Prim2SF 1 = S754_finite false 4503599627370496 (-52).
Proof. reflexivity. Qed.

Lemma Prim2SF_100 : Prim2SF 100 = S754_finite false 7036874417766400 (-46).
Proof. reflexivity. Qed.

Lemma Prim2SF_10000 : Prim2SF 10000 = S754_finite false 5497558138880000 (-39).
Proof. reflexivity. Qed.

Lemma value_1 : (IZR 4503599627370496 * bpow (-52) = 1)%R.
Proof.
  change (-52)%Z with (- (52))%Z. rewrite bpow_opp, bpow_IZR by lia.
  change (2 ^ 52)%Z with 4503599627370496%Z. lra.
Qed.

Lemma value_100 : (IZR 7036874417766400 * bpow (-46) = 100)%R.
Proof.
  change (-46)%Z with (- (46))%Z. rewrite bpow_opp, bpow_IZR by lia.
  change (2 ^ 46)%Z with 70368744177664%Z. lra.
Qed.

Lemma value_10000 : (IZR 5497558138880000 * bpow (-39) = 10000)%R.
Proof.
  change (-39)%Z with (- (39))%Z. rewrite bpow_opp, bpow_IZR by lia.
  change (2 ^ 39)%Z with 549755813888%Z. lra.
Qed.

Lemma SFeqb_refl x : x <> S754_nan -> SFeqb x x = true.
Proof.
  intros Hx. unfold SFeqb.
  destruct x as [[|] | [|] | | [|] m e]; try congruence; try reflexivity;
    cbn [SFcompare]; rewrite Z.compare_refl;
    change (Pos.compare_cont Eq m m) with (Pos.compare m m);
    rewrite Pos.compare_refl; reflexivity.
Qed.

Lemma is_nan_spec x : is_nan x = true <-> Prim2SF x = S754_nan.
Proof.
  unfold is_nan. rewrite FloatAxioms.eqb_spec. split.
  - intros H. destruct (Prim2SF x) eqn:E; try reflexivity;
      rewrite SFeqb_refl in H by discriminate; discriminate.
  - intros ->. reflexivity.
Qed.

Lemma is_nan_false x : is_nan x = false <-> Prim2SF x <> S754_nan.
Proof.
  pose proof (is_nan_spec x) as H. destruct (is_nan x); split; intros; try congruence.
  - exfalso. apply H0, H. reflexivity.
  - intros E. apply H in E. discriminate.
Qed.

Lemma SFnonneg_value x : SFnonneg x = true -> (0 <= SF2R x)%R.
Proof.
  destruct x as [[|] | [|] | | [|] m e]; try discriminate; intros _;
    try (cbn [SF2R]; lra).
  pose proof (SF2R_finite_pos m e). lra.
Qed.

Lemma SFnonneg_not_nan x : SFnonneg x = true -> x <> S754_nan.
Proof. intros H ->. discriminate. Qed.

(** The order of a non-negative finite number of value at most [100]. *)
Lemma within_100_range x :
  SFwithin 100 (Prim2SF x) -> (0 <=? x) = true /\ (x <=? 100) = true.
Proof.
  intros (Fx & Nx & Hx). pose proof (Prim2SF_valid x) as Vx.
  rewrite !FloatAxioms.leb_spec, Prim2SF_0, Prim2SF_100. split.
  - apply SFleb_finite; auto. cbn [SF2R]. apply SFnonneg_value, Nx.
  - apply SFleb_finite; auto. cbn [SF2R cond_Zopp]. rewrite value_100. exact Hx.
Qed.

Lemma add_1_lower rs :
  SFnonneg (Prim2SF rs) = true ->
  SFnonneg (Prim2SF (1 + rs)) = true /\
  (SFfinite (Prim2SF (1 + rs)) = true -> (1 <= SF2R (Prim2SF (1 + rs)))%R).
Proof.
  intros Hrs. rewrite FloatAxioms.add_spec, Prim2SF_1.
  pose proof (SFadd_lower (S754_finite false 4503599627370496 (-52)) (Prim2SF rs)
                eq_refl eq_refl eq_refl Hrs) as H.
  cbv zeta in H. cbn [SF2R cond_Zopp] in H. rewrite value_1 in H. exact H.
Qed.

Lemma div_100_by t :
  SFnonneg (Prim2SF t) = true ->
  (SFfinite (Prim2SF t) = true -> (1 <= SF2R (Prim2SF t))%R) ->
  SFwithin 100 (Prim2SF (100 / t)).
Proof.
  intros Nt Ht. rewrite FloatAxioms.div_spec, Prim2SF_100.
  destruct (Prim2SF t) as [[|] | [|] | | [|] mt et]; try discriminate.
  - specialize (Ht eq_refl). cbn [SF2R] in Ht. lra.
  - unfold SFwithin, SF64div. cbn [SFdiv xorb SFfinite SFnonneg SF2R].
    repeat split; lra.
  - specialize (Ht eq_refl). cbn [SF2R cond_Zopp] in Ht.
    rewrite <- value_100.
    apply (SFdiv_upper (S754_finite false 7036874417766400 (-46)) mt et
             7036874417766400 (-46) eq_refl eq_refl eq_refl).
    cbn [SF2R cond_Zopp]. rewrite value_100.
    set (d := (IZR (Zpos mt) * bpow et)%R) in *.
    apply Rmult_le_reg_r with d; [lra | ].
    unfold Rdiv. rewrite Rmult_assoc, Rinv_l by lra. lra.
Qed.

Lemma sub_from_100 q :
  SFwithin 100 (Prim2SF q) -> SFwithin 100 (Prim2SF (100 - q)).
Proof.
  intros (Fq & Nq & Hq). rewrite FloatAxioms.sub_spec, Prim2SF_100. rewrite <- value_100.
  apply SFsub_upper; auto. rewrite value_100. exact Hq.
Qed.

Lemma mul_by_100 r :
  SFwithin 100 (Prim2SF r) -> SFwithin 10000 (Prim2SF (r * 100)).
Proof.
  intros (Fr & Nr & Hr). rewrite FloatAxioms.mul_spec, Prim2SF_100. rewrite <- value_10000.
  apply SFmul_upper; auto using Prim2SF_valid.
  cbn [SF2R cond_Zopp]. rewrite value_100, value_10000.
  pose proof (SFnonneg_value _ Nr). lra.
Qed.

Lemma div_by_100 u :
  SFwithin 10000 (Prim2SF u) -> SFwithin 100 (Prim2SF (u / 100)).
Proof.
  intros (Fu & Nu & Hu). rewrite FloatAxioms.div_spec, Prim2SF_100. rewrite <- value_100.
  apply SFdiv_upper; auto. rewrite value_100. lra.
Qed.

Lemma Prim2SF_of_Z n :
  Prim2SF (JS.of_Z n) = binary_normalize prec emax n 0 false.
Proof. unfold JS.of_Z. apply Prim2SF_SF2Prim, binary_normalize_valid. Qed.

Lemma of_nat_nonneg n : SFnonneg (Prim2SF (JS.of_nat n)) = true.
Proof.
  unfold JS.of_nat. rewrite Prim2SF_of_Z. apply normalize_int_nonneg. lia.
Qed.

Lemma Math_round_within w :
  SFwithin 10000 (Prim2SF w) -> SFwithin 10000 (Prim2SF (JS.Math_round w)).
Proof.
  intros Hw. unfold JS.Math_round.
  destruct (Prim2SF w) as [s | s | | s m e] eqn:E; try (rewrite E; exact Hw).
  destruct (Z.leb_spec 0 e) as [He | He]; [rewrite E; exact Hw | ].
  destruct Hw as (_ & Ns & Hle). destruct s; [discriminate | ].
  cbn [cond_Zopp SF2R] in Hle |- *.
  set (k := (2 ^ (- e))%Z).
  assert (Hk : (0 < k)%Z) by (apply Z.pow_pos_nonneg; lia).
  assert (H2k : (2 ^ (1 - e) = 2 * k)%Z).
  { unfold k. replace (1 - e)%Z with (Z.succ (- e)) by lia. apply Z.pow_succ_r. lia. }
  rewrite H2k.
  assert (Hm : (Zpos m <= 10000 * k)%Z).
  { apply le_IZR. rewrite mult_IZR. unfold k. rewrite <- bpow_IZR by lia.
    replace e with (- (- e))%Z in Hle by lia. rewrite bpow_opp in Hle.
    pose proof (bpow_pos (- e)) as Hp.
    apply Rmult_le_reg_r with (/ bpow (- e))%R; [apply Rinv_0_lt_compat, Hp | ].
    rewrite Rmult_assoc, Rinv_r by lra. lra. }
  set (n := ((2 * Zpos m + k) / (2 * k))%Z).
  assert (Hn0 : (0 <= n)%Z) by (apply Z.div_pos; lia).
  assert (Hn1 : (n < 10001)%Z) by (apply Z.div_lt_upper_bound; lia).
  destruct (Z.eqb_spec n 0) as [_ | Hne].
  - change (Prim2SF zero) with (S754_zero false). repeat split. cbn [SF2R]. lra.
  - rewrite Prim2SF_of_Z. rewrite <- value_10000. apply normalize_upper; [lia | reflexivity | ].
    rewrite bpow_0, value_10000, Rmult_1_r.
    change 10000%R with (IZR 10000). apply IZR_le. lia.
Qed.

(** From a non-negative relative strength the rounded index is in
    [[0, 100]]. *)
Lemma rsi_formula_range rs :
  SFnonneg (Prim2SF rs) = true ->
  let r := JS.Math_round ((100 - 100 / (1 + rs)) * 100) / 100 in
  (0 <=? r) = true /\ (r <=? 100) = true.
Proof.
  intros Hrs r. subst r. apply within_100_range.
  apply div_by_100, Math_round_within, mul_by_100, sub_from_100.
  destruct (add_1_lower rs Hrs) as [Nt Ht]. apply div_100_by; assumption.
Qed.

(** A [NaN] relative strength gives [NaN]. *)
Lemma rsi_formula_nan rs :
  Prim2SF rs = S754_nan ->
  is_nan (JS.Math_round ((100 - 100 / (1 + rs)) * 100) / 100) = true.
Proof.
  intros Hrs. apply is_nan_spec.
  assert (H1 : Prim2SF (1 + rs) = S754_nan).
  { rewrite FloatAxioms.add_spec, Hrs, Prim2SF_1. reflexivity. }
  assert (H2 : Prim2SF (100 / (1 + rs)) = S754_nan).
  { rewrite FloatAxioms.div_spec, H1, Prim2SF_100. reflexivity. }
  assert (H3 : Prim2SF (100 - 100 / (1 + rs)) = S754_nan).
  { rewrite FloatAxioms.sub_spec, H2, Prim2SF_100. reflexivity. }
  assert (H4 : Prim2SF ((100 - 100 / (1 + rs)) * 100) = S754_nan).
  { rewrite FloatAxioms.mul_spec, H3. reflexivity. }
  assert (H5 : Prim2SF (JS.Math_round ((100 - 100 / (1 + rs)) * 100)) = S754_nan).
  { unfold JS.Math_round. rewrite H4. exact H4. }
  rewrite FloatAxioms.div_spec, H5. reflexivity.
Qed.

End NumFacts.

(* ===================================================================== *)
(** * [calculateRSI] *)
(* ===================================================================== *)

Local Open Scope float_scope.

Section RSI.
Import B64 B64Facts NumFacts.

(** ** The loop *)

Lemma rsi_loop_ext p1 p2 n : forall i g l,
  (forall j, (j < i + n)%nat -> JS.index p1 j = JS.index p2 j) ->
  rsi_loop p1 n i g l = rsi_loop p2 n i g l.
Proof.
  induction n as [ | n IH]; intros i g l H; [reflexivity | ].
  cbn [rsi_loop].
  rewrite (H i) by lia. rewrite (H (i - 1)%nat) by lia.
  destruct (JS.gt (JS.index p2 i - JS.index p2 (i - 1)) 0); apply IH; intros j Hj; apply H; lia.
Qed.

Lemma consecutive_changes_skipn prices : forall j,
  (S j < length prices)%nat ->
  skipn j (consecutive_changes prices)
  = (JS.index prices (S j) - JS.index prices j) :: skipn (S j) (consecutive_changes prices).
Proof.
  induction prices as [ | a rest IH]; intros j Hj; [simpl in Hj; lia | ].
  destruct rest as [ | b rest']; [simpl in Hj; lia | ].
  destruct j as [ | j].
  - reflexivity.
  - change (consecutive_changes (a :: b :: rest'))
      with ((b - a) :: consecutive_changes (b :: rest')).
    cbn [skipn]. rewrite IH by (simpl in Hj |- *; lia). reflexivity.
Qed.

(** The loop is a left fold of [rsi_step] over consecutive changes. *)
Lemma rsi_loop_fold prices n : forall j g l,
  (S j + n <= length prices)%nat ->
  rsi_loop prices n (S j) g l
  = fold_left rsi_step (firstn n (skipn j (consecutive_changes prices))) (g, l).
Proof.
  induction n as [ | n IH]; intros j g l H; [reflexivity | ].
  cbn [rsi_loop]. replace (S j - 1)%nat with j by lia.
  rewrite consecutive_changes_skipn by lia. cbn [firstn fold_left].
  unfold rsi_step at 2. cbn [fst snd].
  destruct (JS.gt (JS.index prices (S j) - JS.index prices j) 0);
    apply IH; lia.
Qed.

Lemma calculateRSI_unfold candles period :
  (period + 1 <= length candles)%nat ->
  calculateRSI candles period =
  let '(gains, losses) := fold_left rsi_step (first_changes candles period) (0, 0) in
  let avgGain := gains / JS.of_nat period in
  let avgLoss := losses / JS.of_nat period in
  if JS.strict_eq avgLoss 0 then 100
  else JS.Math_round ((100 - 100 / (1 + avgGain / avgLoss)) * 100) / 100.
Proof.
  intros H. unfold calculateRSI.
  destruct (Nat.ltb_spec (length candles) (period + 1)) as [ | _]; [lia | ].
  cbv zeta. rewrite rsi_loop_fold.
  - reflexivity.
  - rewrite length_rev, length_map. lia.
Qed.

(** ** Signs of the accumulators *)

Lemma SFltb_zero_nonneg x : SFltb (S754_zero false) x = true -> SFnonneg x = true.
Proof. destruct x as [[|] | [|] | | [|] m e]; intros H; try discriminate; reflexivity. Qed.

Lemma SFabs_nonneg_or_nan x : SFnonneg_or_nan (SFabs x).
Proof. destruct x as [[|] | [|] | | [|] m e]; cbn; unfold SFnonneg_or_nan; auto. Qed.

Lemma SFadd_nonneg_or_nan x y :
  SFnonneg_or_nan x -> SFnonneg_or_nan y -> SFnonneg_or_nan (SF64add x y).
Proof.
  intros [Hx | ->] [Hy | ->].
  - left. apply SFadd_nonneg; assumption.
  - right. destruct x; reflexivity.
  - right. reflexivity.
  - right. reflexivity.
Qed.

Lemma SFdiv_nonneg_or_nan x y :
  SFnonneg_or_nan x -> SFnonneg_or_nan y -> SFnonneg_or_nan (SF64div x y).
Proof.
  intros [Hx | ->] [Hy | ->].
  - destruct (SFdiv_nonneg x y Hx Hy) as [H | H]; [left | right]; assumption.
  - right. destruct x; reflexivity.
  - right. reflexivity.
  - right. reflexivity.
Qed.

Lemma rsi_step_signs acc c :
  SFnonneg (Prim2SF (fst acc)) = true -> SFnonneg_or_nan (Prim2SF (snd acc)) ->
  SFnonneg (Prim2SF (fst (rsi_step acc c))) = true /\
  SFnonneg_or_nan (Prim2SF (snd (rsi_step acc c))).
Proof.
  destruct acc as [g l]. cbn [fst snd].
  intros Hg Hl. unfold rsi_step, JS.gt, JS.Math_abs. cbn [fst snd].
  destruct (0 <? c) eqn:Hc; cbn [fst snd].
  - split; [ | exact Hl]. rewrite FloatAxioms.add_spec. apply SFadd_nonneg; [exact Hg | ].
    rewrite FloatAxioms.ltb_spec, Prim2SF_0 in Hc. apply SFltb_zero_nonneg, Hc.
  - split; [exact Hg | ]. rewrite FloatAxioms.add_spec, FloatAxioms.abs_spec.
    apply SFadd_nonneg_or_nan; [exact Hl | apply SFabs_nonneg_or_nan].
Qed.

Lemma fold_rsi_step_signs changes : forall acc,
  SFnonneg (Prim2SF (fst acc)) = true -> SFnonneg_or_nan (Prim2SF (snd acc)) ->
  SFnonneg (Prim2SF (fst (fold_left rsi_step changes acc))) = true /\
  SFnonneg_or_nan (Prim2SF (snd (fold_left rsi_step changes acc))).
Proof.
  induction changes as [ | c changes IH]; intros acc Hg Hl; [auto | ].
  cbn [fold_left]. destruct (rsi_step_signs acc c Hg Hl). apply IH; assumption.
Qed.

(** ** When the result is a number *)

Lemma averages_unfold candles period :
  (period + 1 <= length candles)%nat ->
  averages candles period =
  let '(gains, losses) := fold_left rsi_step (first_changes candles period) (0, 0) in
  (gains / JS.of_nat period, losses / JS.of_nat period).
Proof.
  intros H. unfold averages. cbv zeta. rewrite rsi_loop_fold.
  - reflexivity.
  - rewrite length_rev, length_map. lia.
Qed.

Lemma is_infinity_match x :
  is_infinity x = match Prim2SF x with S754_infinity _ => true | _ => false end.
Proof.
  unfold is_infinity. rewrite FloatAxioms.eqb_spec, FloatAxioms.abs_spec.
  change (Prim2SF infinity) with (S754_infinity false).
  destruct (Prim2SF x) as [[|] | [|] | | [|] m e]; reflexivity.
Qed.

Lemma is_nan_match x :
  is_nan x = match Prim2SF x with S754_nan => true | _ => false end.
Proof.
  destruct (is_nan x) eqn:E.
  - apply is_nan_spec in E. rewrite E. reflexivity.
  - apply is_nan_false in E. destruct (Prim2SF x); congruence.
Qed.

Lemma strict_eq_zero_match x :
  JS.strict_eq x 0 = match Prim2SF x with S754_zero _ => true | _ => false end.
Proof.
  unfold JS.strict_eq. rewrite FloatAxioms.eqb_spec, Prim2SF_0.
  destruct (Prim2SF x) as [[|] | [|] | | [|] m e]; reflexivity.
Qed.

Lemma in_0_100_nan r : is_nan r = true -> in_0_100 r = false.
Proof.
  intros H. apply is_nan_spec in H. unfold in_0_100.
  rewrite FloatAxioms.leb_spec, H, Prim2SF_0. reflexivity.
Qed.

Lemma in_0_100_number r : in_0_100 r = true -> is_nan r = false.
Proof.
  intros H. destruct (is_nan r) eqn:E; [ | reflexivity].
  rewrite (in_0_100_nan r E) in H. discriminate.
Qed.

Lemma SFdiv_finite_not_nan s1 m1 e1 s2 m2 e2 :
  SF64div (S754_finite s1 m1 e1) (S754_finite s2 m2 e2) <> S754_nan.
Proof.
  unfold SF64div. cbn [SFdiv].
  pose proof (div_located m1 e1 m2 e2) as H.
  destruct (SFdiv_core_binary prec emax (Zpos m1) e1 (Zpos m2) e2) as [[q e'] l].
  destruct H as (Hq & Hl & HP).
  destruct (binary_round_aux_spec (xorb s1 s2) q e' l _ Hq Hl HP)
    as (M & M' & E & _ & _ & _ & _ & _ & Hr).
  intros Hn. rewrite Hn in Hr. exact Hr.
Qed.

(** The result of the last lines of [calculateRSI], from the two averages:
    it is [NaN] when the average loss is [NaN] or both averages are infinite,
    and a number of [[0, 100]] otherwise. *)
Lemma rsi_value_cases G L :
  SFnonneg_or_nan (Prim2SF G) -> SFnonneg_or_nan (Prim2SF L) ->
  (Prim2SF G = S754_nan ->
   match Prim2SF L with S754_nan | S754_zero _ => True | _ => False end) ->
  let r := if JS.strict_eq L 0 then 100
           else JS.Math_round ((100 - 100 / (1 + G / L)) * 100) / 100 in
  is_nan r = (is_nan L || (is_infinity G && is_infinity L))%bool /\
  in_0_100 r = negb (is_nan L || (is_infinity G && is_infinity L))%bool.
Proof.
  intros HG HL HA r. subst r.
  assert (Hnan : Prim2SF (G / L) = S754_nan ->
            is_nan (JS.Math_round ((100 - 100 / (1 + G / L)) * 100) / 100) = true /\
            in_0_100 (JS.Math_round ((100 - 100 / (1 + G / L)) * 100) / 100) = false).
  { intros H. pose proof (rsi_formula_nan _ H) as Hn.
    split; [exact Hn | apply in_0_100_nan, Hn]. }
  assert (Hok : SFnonneg (Prim2SF (G / L)) = true ->
            is_nan (JS.Math_round ((100 - 100 / (1 + G / L)) * 100) / 100) = false /\
            in_0_100 (JS.Math_round ((100 - 100 / (1 + G / L)) * 100) / 100) = true).
  { intros H. destruct (rsi_formula_range _ H) as [H0 H1].
    assert (Hr : in_0_100 (JS.Math_round ((100 - 100 / (1 + G / L)) * 100) / 100) = true)
      by (unfold in_0_100; rewrite H0, H1; reflexivity).
    split; [apply in_0_100_number, Hr | exact Hr]. }
  rewrite FloatAxioms.div_spec in Hnan, Hok.
  rewrite strict_eq_zero_match, (is_nan_match L), !is_infinity_match.
  destruct HL as [NL | EL].
  - destruct (Prim2SF L) as [[|] | [|] | | [|] mL eL] eqn:EL; try discriminate NL.
    + rewrite andb_false_r. split; reflexivity.
    + destruct HG as [NG | EG]; [ | exfalso; exact (HA EG)].
      destruct (Prim2SF G) as [[|] | [|] | | [|] mG eG] eqn:EG; try discriminate NG;
        cbn [orb andb negb]; first [apply Hnan; reflexivity | apply Hok; reflexivity].
    + destruct HG as [NG | EG]; [ | exfalso; exact (HA EG)].
      destruct (Prim2SF G) as [[|] | [|] | | [|] mG eG] eqn:EG; try discriminate NG;
        cbn [orb andb negb]; try (apply Hok; reflexivity).
      apply Hok.
      destruct (SFdiv_nonneg (S754_finite false mG eG) (S754_finite false mL eL)
                  eq_refl eq_refl) as [H | H]; [exact H | ].
      exfalso. exact (SFdiv_finite_not_nan _ _ _ _ _ _ H).
  - rewrite EL in *. cbn [orb negb]. apply Hnan.
    destruct (Prim2SF G); reflexivity.
Qed.

(** An average gain that is [NaN] comes with an average loss that is [NaN]
    or zero. *)
Lemma averages_nan gains losses period :
  SFnonneg (Prim2SF gains) = true -> SFnonneg_or_nan (Prim2SF losses) ->
  (period = 0%nat -> Prim2SF losses = S754_zero false) ->
  Prim2SF (gains / JS.of_nat period) = S754_nan ->
  match Prim2SF (losses / JS.of_nat period) with
  | S754_nan | S754_zero _ => True
  | _ => False
  end.
Proof.
  intros Hg Hl H0. rewrite !FloatAxioms.div_spec. unfold JS.of_nat. rewrite Prim2SF_of_Z.
  destruct (Z.of_nat period) as [ | q | q] eqn:E; [ | | lia].
  - rewrite H0 by lia. intros _. exact I.
  - pose proof (normalize_sign (Zpos q) 0 ltac:(lia)) as Hs. cbv zeta in Hs.
    destruct Hs as [(mp & ep & ->) | ->].
    + intros H. exfalso.
      destruct (Prim2SF gains) as [[|] | [|] | | [|] mg eg]; try discriminate Hg;
        try discriminate H.
      exact (SFdiv_finite_not_nan _ _ _ _ _ _ H).
    + intros _.
      destruct Hl as [Hl | ->]; [ | exact I].
      destruct (Prim2SF losses) as [[|] | [|] | | [|] ml el]; try discriminate Hl; exact I.
Qed.

End RSI.

Section RSIProperties.
Import B64 B64Facts NumFacts.

(** The end-to-end example of the specification: gains of 30 and losses of
    18 over the 14 changes give 62.5. *)
Example calculateRSI_example :
  calculateRSI (series example_prices) default_period = 62.5.
Proof. reflexivity. Qed.

(** ** Insufficient data *)

(** C5: with fewer than [period + 1] observations [calculateRSI] returns
    exactly the neutral value 50; it does not fail. *)
Theorem calculateRSI_insufficient_data candles period :
  (length candles < period + 1)%nat -> calculateRSI candles period = 50.
Proof.
  intros H. unfold calculateRSI.
  destruct (Nat.ltb_spec (length candles) (period + 1)); [reflexivity | lia].
Qed.

Lemma calculateRSI_insufficient_data_witness :
  (length two_days < 14 + 1)%nat /\
  calculateRSI two_days 14 = 50.
Proof.
  split; [simpl; lia | apply calculateRSI_insufficient_data; simpl; lia].
Defined.

(** ** Which observations matter *)

(** An older observation appended to a newest-first series becomes the
    first price after the reversal, and changes the result. *)
Lemma calculateRSI_older_data_changes_result :
  (2 + 1 <= length three_rising)%nat /\
  calculateRSI three_rising 2 = 100 /\
  calculateRSI (three_rising ++ series [5]) 2 = 20 /\
  calculateRSI (three_rising ++ series [5]) 2 <> calculateRSI three_rising 2.
Proof.
  split; [simpl; lia | ]. split; [reflexivity | ]. split; [reflexivity | ].
  intros H. apply (f_equal (fun x => x =? 100)) in H. vm_compute in H. discriminate.
Qed.

(** C4 (amended): only the first [period] transitions of the oldest-first
    order are read, so observations in front of a newest-first series of at
    least [period + 1] candles, which are newer ones, do not change the
    result. *)
Theorem calculateRSI_newer_data newer candles period :
  (period + 1 <= length candles)%nat ->
  calculateRSI (newer ++ candles)%list period = calculateRSI candles period.
Proof.
  intros H. unfold calculateRSI. rewrite length_app.
  destruct (Nat.ltb_spec (length newer + length candles) (period + 1)); [lia | ].
  destruct (Nat.ltb_spec (length candles) (period + 1)); [lia | ].
  cbv zeta.
  rewrite (rsi_loop_ext (rev (map trade_price (newer ++ candles)%list))
             (rev (map trade_price candles)) period 1 0 0); [reflexivity | ].
  intros j Hj. unfold JS.index.
  rewrite List.map_app, List.rev_app_distr.
  apply List.app_nth1. rewrite length_rev, length_map. lia.
Qed.

Lemma calculateRSI_newer_data_witness :
  (2 + 1 <= length three_rising)%nat /\
  calculateRSI (series [7; 5] ++ three_rising)%list 2
  = calculateRSI three_rising 2.
Proof.
  split; [simpl; lia | apply calculateRSI_newer_data; simpl; lia].
Defined.

(** ** The range of the result *)

(** With period 0 no change is read and both averages are [0 / 0]. *)
Lemma calculateRSI_period_zero_is_nan :
  is_nan (calculateRSI one_day 0) = true /\
  in_0_100 (calculateRSI one_day 0) = false.
Proof. split; reflexivity. Qed.

(** A price that overflows: with period 2 both averages are infinite and
    the result is [NaN]. *)
Lemma calculateRSI_infinite_averages :
  averages overflowing 2 = (infinity, infinity) /\
  degenerate overflowing 2 = true /\
  is_nan (calculateRSI overflowing 2) = true.
Proof. repeat split; reflexivity. Qed.

(** An input with a finite average loss is not degenerate. *)
Lemma finite_loss_not_degenerate candles period :
  is_finite (snd (averages candles period)) = true ->
  degenerate candles period = false.
Proof.
  unfold degenerate, is_finite. destruct (averages candles period) as [avgGain avgLoss].
  cbn [snd]. intros H. apply negb_true_iff, orb_false_iff in H. destruct H as [-> ->].
  rewrite andb_false_r. apply andb_false_r.
Qed.

(** C3 (amended): the value returned by [calculateRSI] lies in [[0, 100]]
    for every input that is not degenerate, and is [NaN] for the degenerate
    ones: those with at least [period + 1] observations whose average loss
    is [NaN] (as for period 0) or whose two averages are both infinite. *)
Theorem calculateRSI_range candles period :
  in_0_100 (calculateRSI candles period) = negb (degenerate candles period) /\
  is_nan (calculateRSI candles period) = degenerate candles period.
Proof.
  unfold degenerate.
  destruct (Nat.ltb_spec (length candles) (period + 1)) as [Hlt | Hge].
  - unfold calculateRSI.
    destruct (Nat.ltb_spec (length candles) (period + 1)); [ | lia].
    destruct (averages candles period) as [avgGain avgLoss]. split; reflexivity.
  - rewrite calculateRSI_unfold, averages_unfold by exact Hge.
    pose proof (fold_rsi_step_signs (first_changes candles period) (0, 0) eq_refl
                  (or_introl eq_refl)) as [Hg Hl].
    assert (H0 : period = 0%nat ->
                 Prim2SF (snd (fold_left rsi_step (first_changes candles period) (0, 0)))
                 = S754_zero false).
    { intros ->. reflexivity. }
    destruct (fold_left rsi_step (first_changes candles period) (0, 0)) as [gains losses].
    cbn [fst snd] in Hg, Hl, H0. cbv zeta. cbn [negb andb].
    assert (Hp : SFnonneg_or_nan (Prim2SF (JS.of_nat period)))
      by (left; apply of_nat_nonneg).
    destruct (rsi_value_cases (gains / JS.of_nat period) (losses / JS.of_nat period))
      as [Hn Hr].
    + rewrite FloatAxioms.div_spec. apply SFdiv_nonneg_or_nan; [left; exact Hg | exact Hp].
    + rewrite FloatAxioms.div_spec. apply SFdiv_nonneg_or_nan; [exact Hl | exact Hp].
    + apply averages_nan; assumption.
    + cbv zeta in Hn, Hr. split; [exact Hr | exact Hn].
Qed.

(** ** No losses *)

(** With period 0 there is no change at all, and the result is [NaN]. *)
Lemma calculateRSI_period_zero_no_losses :
  (0 + 1 <= length one_day)%nat /\
  Forall (fun c => (0 <=? c) = true) (first_changes one_day 0) /\
  calculateRSI one_day 0 <> 100.
Proof.
  split; [simpl; lia | ]. split; [constructor | ].
  intros H. apply (f_equal is_nan) in H. vm_compute in H. discriminate.
Qed.

Lemma rsi_step_no_loss acc c :
  Prim2SF (snd acc) = S754_zero false -> (0 <=? c) = true ->
  Prim2SF (snd (rsi_step acc c)) = S754_zero false.
Proof.
  destruct acc as [g l]. cbn [fst snd].
  intros Hl Hc. unfold rsi_step, JS.gt, JS.Math_abs. cbn [fst snd].
  destruct (0 <? c) eqn:Hlt; cbn [fst snd]; [exact Hl | ].
  rewrite FloatAxioms.add_spec, FloatAxioms.abs_spec, Hl.
  rewrite FloatAxioms.leb_spec, Prim2SF_0 in Hc.
  rewrite FloatAxioms.ltb_spec, Prim2SF_0 in Hlt.
  destruct (Prim2SF c) as [[|] | [|] | | [|] m e]; try discriminate; reflexivity.
Qed.

Lemma fold_rsi_step_no_loss changes : forall acc,
  Prim2SF (snd acc) = S754_zero false ->
  Forall (fun c => (0 <=? c) = true) changes ->
  Prim2SF (snd (fold_left rsi_step changes acc)) = S754_zero false.
Proof.
  induction changes as [ | c changes IH]; intros acc Hl Hall; [exact Hl | ].
  inversion Hall; subst. cbn [fold_left]. apply IH; [ | assumption].
  apply rsi_step_no_loss; assumption.
Qed.

(** C6 (amended): for a period of at least 1 and a series of at least
    [period + 1] observations whose first [period] oldest-first price
    changes are all non-negative, the losses and the average loss are zero
    and [calculateRSI] returns exactly 100. *)
Theorem calculateRSI_no_losses candles period :
  (1 <= period)%nat -> (period + 1 <= length candles)%nat ->
  Forall (fun c => (0 <=? c) = true) (first_changes candles period) ->
  calculateRSI candles period = 100.
Proof.
  intros Hp Hlen Hall. rewrite calculateRSI_unfold by exact Hlen.
  pose proof (fold_rsi_step_no_loss (first_changes candles period) (0, 0) eq_refl Hall) as Hl.
  destruct (fold_left rsi_step (first_changes candles period) (0, 0)) as [gains losses].
  cbn [snd] in Hl. cbv zeta.
  assert (Hz : Prim2SF (losses / JS.of_nat period) = S754_zero false).
  { rewrite FloatAxioms.div_spec, Hl. unfold JS.of_nat. rewrite Prim2SF_of_Z.
    destruct (Z.of_nat period) as [ | p | p] eqn:E; try lia.
    apply SFdiv_zero_int. }
  unfold JS.strict_eq. rewrite FloatAxioms.eqb_spec, Hz. reflexivity.
Qed.

Lemma calculateRSI_no_losses_witness :
  (1 <= 2)%nat /\ (2 + 1 <= length three_rising)%nat /\
  Forall (fun c => (0 <=? c) = true) (first_changes three_rising 2) /\
  calculateRSI three_rising 2 = 100.
Proof.
  assert (H1 : (1 <= 2)%nat) by lia.
  assert (H2 : (2 + 1 <= length three_rising)%nat) by (simpl; lia).
  assert (H4 : Forall (fun c => (0 <=? c) = true) (first_changes three_rising 2))
    by (repeat constructor).
  split; [exact H1 | ]. split; [exact H2 | ]. split; [exact H4 | ].
  exact (calculateRSI_no_losses _ _ H1 H2 H4).
Defined.

End RSIProperties.

Section RSIFormula.
Import B64 B64Facts NumFacts.

(** ** The formula of the specification *)

Lemma ltb_pos_not_neg c : (0 <? c) = true -> (c <? 0) = false.
Proof.
  rewrite !FloatAxioms.ltb_spec, Prim2SF_0.
  destruct (Prim2SF c) as [[|] | [|] | | [|] m e]; intros; try discriminate; reflexivity.
Qed.

Lemma zero_change c :
  is_nan c = false -> (0 <? c) = false -> (c <? 0) = false ->
  exists s, Prim2SF c = S754_zero s.
Proof.
  intros Hn. apply is_nan_false in Hn. revert Hn.
  rewrite !FloatAxioms.ltb_spec, Prim2SF_0.
  destruct (Prim2SF c) as [s | [|] | | [|] m e]; intros; try discriminate; try congruence.
  exists s. reflexivity.
Qed.

(** Adding the absolute value of a zero leaves a number that is not [-0]
    as it is. *)
Lemma add_abs_zero l c :
  Prim2SF l <> S754_zero true -> (exists s, Prim2SF c = S754_zero s) ->
  l + abs c = l.
Proof.
  intros Hl [s Hc]. apply Prim2SF_inj.
  rewrite FloatAxioms.add_spec, FloatAxioms.abs_spec, Hc.
  destruct (Prim2SF l) as [[|] | [|] | | sl ml el]; try reflexivity. congruence.
Qed.

Lemma add_abs_not_neg_zero l c : Prim2SF (l + abs c) <> S754_zero true.
Proof.
  rewrite FloatAxioms.add_spec.
  apply SFadd_not_neg_zero; try apply Prim2SF_valid.
  rewrite FloatAxioms.abs_spec. destruct (Prim2SF c); discriminate.
Qed.

(** On changes that are numbers, the loop computes the gains and the losses
    of the specification. *)
Lemma fold_rsi_step_split changes : forall g l,
  Forall (fun c => is_nan c = false) changes -> Prim2SF l <> S754_zero true ->
  fold_left rsi_step changes (g, l) =
  (fold_left (fun g c => if JS.gt c 0 then g + c else g) changes g,
   fold_left (fun l c => if JS.lt c 0 then l + JS.Math_abs c else l) changes l).
Proof.
  induction changes as [ | c changes IH]; intros g l Hall Hl; [reflexivity | ].
  inversion Hall as [ | c' cs' Hc Hrest]; subst.
  cbn [fold_left]. unfold rsi_step at 2. unfold JS.gt, JS.lt, JS.Math_abs in *.
  cbn [fst snd].
  destruct (0 <? c) eqn:Hpos.
  - rewrite (ltb_pos_not_neg c Hpos). apply IH; assumption.
  - destruct (c <? 0) eqn:Hneg.
    + apply IH; [assumption | apply add_abs_not_neg_zero].
    + rewrite (add_abs_zero l c Hl (zero_change c Hc Hpos Hneg)).
      apply IH; assumption.
Qed.

(** A single drop of [2^-1074] is a strict decrease, but a fourteenth of it
    rounds to zero: the guard on [avgLoss] answers 100 where the formula is
    [0 / 0]. *)
Lemma calculateRSI_tiny_drop :
  (14 + 1 <= length tiny_drop)%nat /\
  Exists (fun c => JS.lt c 0 = true) (first_changes tiny_drop 14) /\
  calculateRSI tiny_drop 14 = 100 /\
  is_nan (spec_RSI tiny_drop 14) = true /\
  calculateRSI tiny_drop 14 <> spec_RSI tiny_drop 14.
Proof.
  split; [simpl; lia | ].
  split; [apply Exists_cons_hd; reflexivity | ].
  split; [reflexivity | ]. split; [reflexivity | ].
  intros H. apply (f_equal is_nan) in H. vm_compute in H. discriminate.
Qed.

(** C1 (amended): for a series of at least [period + 1] observations whose
    first [period] oldest-first changes are all numbers (none is [NaN]) and
    whose average loss [losses / period] is not zero, [calculateRSI]
    returns [round ((100 - 100 / (1 + avgGain / avgLoss)) * 100) / 100],
    the gains and losses being those of the specification. *)
Theorem calculateRSI_formula candles period :
  (period + 1 <= length candles)%nat ->
  Forall (fun c => is_nan c = false) (first_changes candles period) ->
  JS.strict_eq (spec_avgLoss candles period) 0 = false ->
  calculateRSI candles period = spec_RSI candles period.
Proof.
  intros Hlen Hall Hloss. rewrite calculateRSI_unfold by exact Hlen.
  rewrite fold_rsi_step_split; [ | exact Hall | rewrite Prim2SF_0; discriminate].
  unfold spec_RSI, spec_avgLoss, spec_gains, spec_losses in *. cbv zeta.
  rewrite Hloss. reflexivity.
Qed.

Lemma calculateRSI_formula_witness :
  (14 + 1 <= length (series example_prices))%nat /\
  Forall (fun c => is_nan c = false) (first_changes (series example_prices) 14) /\
  JS.strict_eq (spec_avgLoss (series example_prices) 14) 0 = false /\
  calculateRSI (series example_prices) 14 = spec_RSI (series example_prices) 14.
Proof.
  assert (H1 : (14 + 1 <= length (series example_prices))%nat) by (simpl; lia).
  assert (H2 : Forall (fun c => is_nan c = false)
                      (first_changes (series example_prices) 14))
    by (repeat constructor).
  assert (H3 : JS.strict_eq (spec_avgLoss (series example_prices) 14) 0 = false)
    by reflexivity.
  split; [exact H1 | ]. split; [exact H2 | ]. split; [exact H3 | ].
  exact (calculateRSI_formula _ _ H1 H2 H3).
Defined.

End RSIFormula.

(* ===================================================================== *)
(** * [getCoinMetrics] *)
(* ===================================================================== *)

Section Aggregator.
Import B64 B64Facts NumFacts.

Lemma In_non_null {A : Type} (l : list (option A)) (a : A) :
  In a (non_null l) <-> In (Some a) l.
Proof.
  induction l as [ | [b | ] l IH]; cbn [non_null In].
  - tauto.
  - rewrite IH. split; intros [H | H]; auto; left; congruence.
  - rewrite IH. split; [auto | intros [H | H]; [discriminate | assumption]].
Qed.

Lemma marketMetrics_market up m r :
  marketMetrics up m = Some r -> market r = info_market m.
Proof.
  unfold marketMetrics.
  destruct (fetch_candles up (candles_endpoint (info_market m))) as [candles | e];
    [ | discriminate].
  destruct candles as [ | c0 [ | c1 rest]]; try discriminate.
  intros H. injection H as <-. reflexivity.
Qed.

Lemma marketMetrics_fulfilled up m candles :
  fetch_candles up (candles_endpoint (info_market m)) = Fulfilled candles ->
  marketMetrics up m =
  match candles with
  | c0 :: c1 :: _ => Some (buildMetrics m candles c0 c1)
  | _ => None
  end.
Proof. intros H. unfold marketMetrics. rewrite H. reflexivity. Qed.

(** ** Division by zero *)

Lemma not_finite_spec y :
  Prim2SF y = S754_nan \/ (exists s, Prim2SF y = S754_infinity s) ->
  is_finite y = false.
Proof.
  intros H. unfold is_finite.
  destruct H as [H | [s H]].
  - apply is_nan_spec in H. rewrite H. reflexivity.
  - assert (Hi : is_infinity y = true).
    { unfold is_infinity. rewrite FloatAxioms.eqb_spec, FloatAxioms.abs_spec, H. reflexivity. }
    rewrite Hi, orb_true_r. reflexivity.
Qed.

(** A quotient by zero, times 100, is an infinity or [NaN]. *)
Lemma div_by_zero_not_finite x z :
  JS.strict_eq z 0 = true -> is_finite (x / z * 100) = false.
Proof.
  unfold JS.strict_eq. rewrite FloatAxioms.eqb_spec, Prim2SF_0. intros Hz.
  apply not_finite_spec.
  rewrite FloatAxioms.mul_spec, FloatAxioms.div_spec, Prim2SF_100.
  destruct (Prim2SF z) as [sz | [|] | | [|] mz ez]; try discriminate.
  destruct (Prim2SF x) as [sx | sx | | sx mx ex]; cbn; eauto.
Qed.

(** A price of 50 after a price of 0: the record is built and its percent
    change is [50 / 0 * 100]. *)
Lemma percent_change_divides_by_zero :
  exists r,
    marketMetrics example_upstream btc = Some r /\
    priceChangePercent r = (50 - 0) / 0 * 100 /\
    priceChangePercent r = infinity /\
    ~ percent_change_guarded.
Proof.
  eexists. split; [reflexivity | ]. split; [reflexivity | ]. split; [reflexivity | ].
  intros H.
  specialize (H example_upstream btc (candle_at 50) (candle_at 0) [] _
                eq_refl eq_refl eq_refl).
  vm_compute in H. discriminate.
Qed.

(** C2 (amended): the percent change of a record is
    [(current - previous) / previous * 100] whatever the previous price is;
    there is no guard, and for a previous price of zero the stored value is
    an infinity or [NaN]. *)
Theorem percent_change_unguarded up m c0 c1 rest :
  fetch_candles up (candles_endpoint (info_market m)) = Fulfilled (c0 :: c1 :: rest) ->
  exists r,
    marketMetrics up m = Some r /\
    priceChangePercent r
    = (trade_price c0 - trade_price c1) / trade_price c1 * 100 /\
    (JS.strict_eq (trade_price c1) 0 = true ->
     is_finite (priceChangePercent r) = false).
Proof.
  intros H. rewrite (marketMetrics_fulfilled _ _ _ H).
  eexists. split; [reflexivity | ]. split; [reflexivity | ].
  cbn [buildMetrics priceChangePercent]. apply div_by_zero_not_finite.
Qed.

Lemma percent_change_unguarded_witness :
  fetch_candles example_upstream (candles_endpoint (info_market btc))
  = Fulfilled (candle_at 50 :: candle_at 0 :: []) /\
  exists r,
    marketMetrics example_upstream btc = Some r /\
    priceChangePercent r
    = (trade_price (candle_at 50) - trade_price (candle_at 0))
      / trade_price (candle_at 0) * 100 /\
    (JS.strict_eq (trade_price (candle_at 0)) 0 = true ->
     is_finite (priceChangePercent r) = false).
Proof.
  split; [reflexivity | ].
  exact (percent_change_unguarded example_upstream btc (candle_at 50) (candle_at 0) []
           eq_refl).
Defined.

(** ** Which markets have a record *)

(** C7: a candidate market whose candle fetch succeeds has no record in the
    output when fewer than 2 candles came back, and has one when 2 or more
    came back. *)
Theorem record_iff_two_candles up markets m candles :
  fetch_markets up "/v1/market/all" = Fulfilled markets ->
  In m (krwMarkets markets) ->
  fetch_candles up (candles_endpoint (info_market m)) = Fulfilled candles ->
  exists out,
    getCoinMetrics up = Fulfilled out /\
    ((length candles < 2)%nat -> forall r, In r out -> market r <> info_market m) /\
    ((2 <= length candles)%nat -> exists r, In r out /\ market r = info_market m).
Proof.
  intros Hm Hin Hc. unfold getCoinMetrics. rewrite Hm.
  eexists. split; [reflexivity | ]. split.
  - intros Hlen r Hr Heq.
    apply In_non_null, in_map_iff in Hr. destruct Hr as (m' & Hr & _).
    pose proof (marketMetrics_market _ _ _ Hr) as Hmk.
    unfold marketMetrics in Hr. rewrite <- Hmk, Heq, Hc in Hr.
    destruct candles as [ | c0 [ | c1 rest]]; try discriminate.
    simpl in Hlen. lia.
  - intros Hlen. destruct candles as [ | c0 [ | c1 rest]]; try (simpl in Hlen; lia).
    exists (buildMetrics m (c0 :: c1 :: rest) c0 c1). split; [ | reflexivity].
    apply In_non_null, in_map_iff. exists m. split; [ | exact Hin].
    apply (marketMetrics_fulfilled _ _ _ Hc).
Qed.

Lemma record_iff_two_candles_witness :
  fetch_markets example_upstream "/v1/market/all" = Fulfilled example_markets /\
  In eth (krwMarkets example_markets) /\
  fetch_candles example_upstream (candles_endpoint (info_market eth))
  = Fulfilled three_rising /\
  exists out,
    getCoinMetrics example_upstream = Fulfilled out /\
    ((length three_rising < 2)%nat ->
     forall r, In r out -> market r <> info_market eth) /\
    ((2 <= length three_rising)%nat ->
     exists r, In r out /\ market r = info_market eth).
Proof.
  assert (H1 : fetch_markets example_upstream "/v1/market/all" = Fulfilled example_markets)
    by reflexivity.
  assert (H2 : In eth (krwMarkets example_markets)) by (simpl; tauto).
  assert (H3 : fetch_candles example_upstream (candles_endpoint (info_market eth))
               = Fulfilled three_rising) by reflexivity.
  split; [exact H1 | ]. split; [exact H2 | ]. split; [exact H3 | ].
  exact (record_iff_two_candles _ _ _ _ H1 H2 H3).
Defined.

(** ** Isolation of fetch failures *)

Lemma without_market_map up up' m (l : list MarketInfo) :
  (forall m', In m' l -> info_market m' = info_market m -> marketMetrics up m' = None) ->
  (forall m', In m' l -> info_market m' <> info_market m ->
              marketMetrics up m' = marketMetrics up' m') ->
  non_null (map (marketMetrics up) l)
  = without_market (info_market m) (non_null (map (marketMetrics up') l)).
Proof.
  induction l as [ | m' l IH]; intros Hsame Hother; [reflexivity | ].
  cbn [map non_null].
  assert (IH' : non_null (map (marketMetrics up) l)
                = without_market (info_market m) (non_null (map (marketMetrics up') l))).
  { apply IH; intros; [apply Hsame | apply Hother]; simpl; auto. }
  destruct (String.eqb_spec (info_market m') (info_market m)) as [Heq | Hne].
  - rewrite (Hsame m' (or_introl eq_refl) Heq).
    destruct (marketMetrics up' m') as [r | ] eqn:Hr; [ | exact IH'].
    cbn [non_null]. unfold without_market at 1. cbn [List.filter].
    rewrite (marketMetrics_market _ _ _ Hr), Heq, String.eqb_refl. exact IH'.
  - rewrite (Hother m' (or_introl eq_refl) Hne).
    destruct (marketMetrics up' m') as [r | ] eqn:Hr; [ | exact IH'].
    cbn [non_null]. unfold without_market at 1. cbn [List.filter].
    rewrite (marketMetrics_market _ _ _ Hr).
    destruct (String.eqb_spec (info_market m') (info_market m)); [contradiction | ].
    cbn [negb]. f_equal. exact IH'.
Qed.

(** C8: a candidate market whose candle fetch throws has no record in the
    output, the batch still resolves, and the output is what it would be had
    that fetch not failed, less the records of that market. *)
Theorem fetch_failure_is_isolated up up' markets m message :
  fetch_markets up "/v1/market/all" = Fulfilled markets ->
  fetch_markets up' "/v1/market/all" = Fulfilled markets ->
  In m (krwMarkets markets) ->
  fetch_candles up (candles_endpoint (info_market m)) = Rejected message ->
  (forall m', In m' (krwMarkets markets) -> info_market m' <> info_market m ->
     fetch_candles up (candles_endpoint (info_market m'))
     = fetch_candles up' (candles_endpoint (info_market m'))) ->
  exists out out',
    getCoinMetrics up = Fulfilled out /\
    getCoinMetrics up' = Fulfilled out' /\
    (forall r, In r out -> market r <> info_market m) /\
    out = without_market (info_market m) out'.
Proof.
  intros Hm Hm' Hin Hfail Hother. unfold getCoinMetrics. rewrite Hm, Hm'.
  eexists. eexists. split; [reflexivity | ]. split; [reflexivity | ].
  assert (Hnone : forall m', info_market m' = info_market m -> marketMetrics up m' = None).
  { intros m' Heq. unfold marketMetrics. rewrite Heq, Hfail. reflexivity. }
  split.
  - intros r Hr Heq. apply In_non_null, in_map_iff in Hr. destruct Hr as (m' & Hr & _).
    rewrite Hnone in Hr; [discriminate | ].
    rewrite <- Heq. symmetry. eapply marketMetrics_market, Hr.
  - apply without_market_map.
    + intros m' _ Heq. apply Hnone, Heq.
    + intros m' Hin' Hne. unfold marketMetrics. rewrite (Hother m' Hin' Hne). reflexivity.
Qed.

Lemma fetch_failure_is_isolated_witness :
  fetch_markets example_upstream "/v1/market/all" = Fulfilled example_markets /\
  fetch_markets example_upstream_ok "/v1/market/all" = Fulfilled example_markets /\
  In ada (krwMarkets example_markets) /\
  fetch_candles example_upstream (candles_endpoint (info_market ada))
  = Rejected "Upbit API: 404" /\
  exists out out',
    getCoinMetrics example_upstream = Fulfilled out /\
    getCoinMetrics example_upstream_ok = Fulfilled out' /\
    (forall r, In r out -> market r <> info_market ada) /\
    out = without_market (info_market ada) out'.
Proof.
  assert (H1 : fetch_markets example_upstream "/v1/market/all" = Fulfilled example_markets)
    by reflexivity.
  assert (H2 : fetch_markets example_upstream_ok "/v1/market/all"
               = Fulfilled example_markets) by reflexivity.
  assert (H3 : In ada (krwMarkets example_markets)) by (simpl; tauto).
  assert (H4 : fetch_candles example_upstream (candles_endpoint (info_market ada))
               = Rejected "Upbit API: 404") by reflexivity.
  assert (H5 : forall m', In m' (krwMarkets example_markets) ->
                 info_market m' <> info_market ada ->
                 fetch_candles example_upstream (candles_endpoint (info_market m'))
                 = fetch_candles example_upstream_ok (candles_endpoint (info_market m'))).
  { intros m' Hin Hne. simpl in Hin.
    destruct Hin as [<- | [<- | [<- | [<- | []]]]]; try reflexivity.
    exfalso. apply Hne. reflexivity. }
  split; [exact H1 | ]. split; [exact H2 | ]. split; [exact H3 | ]. split; [exact H4 | ].
  exact (fetch_failure_is_isolated _ _ _ _ _ H1 H2 H3 H4 H5).
Defined.

End Aggregator.

(* ===================================================================== *)
(** * [generateDashboard] *)
(* ===================================================================== *)

Section DashboardFacts.
Import B64 B64Facts NumFacts.

(** ** The order of numbers *)

Lemma SFcompare_swap x y :
  SFcompare y x = match SFcompare x y with
                  | Some c => Some (CompOpp c)
                  | None => None
                  end.
Proof.
  destruct x as [sx | sx | | sx mx ex]; destruct y as [sy | sy | | sy my ey];
    try reflexivity; try (destruct sx; reflexivity); try (destruct sy; reflexivity);
    try (destruct sx, sy; reflexivity).
  destruct sx, sy; cbn [SFcompare]; try reflexivity;
    rewrite (Z.compare_antisym ex ey);
    change (Pos.compare_cont Eq my mx) with (Pos.compare my mx);
    change (Pos.compare_cont Eq mx my) with (Pos.compare mx my);
    rewrite (Pos.compare_antisym mx my);
    destruct (ex ?= ey)%Z; destruct (mx ?= my)%positive; reflexivity.
Qed.

Lemma SFcompare_some x y :
  x <> S754_nan -> y <> S754_nan -> exists c, SFcompare x y = Some c.
Proof.
  intros Hx Hy.
  destruct x as [sx | sx | | sx mx ex]; destruct y as [sy | sy | | sy my ey];
    try congruence; cbn [SFcompare]; eauto.
Qed.

(** The comparators [(a, b) => b.key - a.key]: on numbers, the difference
    [y - x] is positive exactly when [x < y]. *)
Lemma float_sub_sign x y :
  is_nan x = false -> is_nan y = false -> (0 <? y - x) = (x <? y).
Proof.
  intros Hx Hy. rewrite !FloatAxioms.ltb_spec, FloatAxioms.sub_spec, Prim2SF_0.
  apply SFsub_sign; try apply Prim2SF_valid; apply is_nan_false; assumption.
Qed.

Lemma ltb_leb x y : (x <? y) = true -> (x <=? y) = true.
Proof.
  rewrite FloatAxioms.ltb_spec, FloatAxioms.leb_spec. unfold SFltb, SFleb.
  destruct (SFcompare (Prim2SF x) (Prim2SF y)) as [[ | | ] | ]; congruence.
Qed.

Lemma not_ltb_geb x y :
  is_nan x = false -> is_nan y = false -> (x <? y) = false -> (y <=? x) = true.
Proof.
  intros Hx Hy. apply is_nan_false in Hx, Hy.
  rewrite FloatAxioms.ltb_spec, FloatAxioms.leb_spec. unfold SFltb, SFleb.
  rewrite (SFcompare_swap (Prim2SF x) (Prim2SF y)).
  destruct (SFcompare_some _ _ Hx Hy) as [c ->].
  destruct c; cbn [CompOpp]; congruence.
Qed.

(** ** [sort] *)

Lemma insert_Permutation {A : Type} (cmp : A -> A -> JS.number) x l :
  Permutation (x :: l) (JS.insert cmp x l).
Proof.
  induction l as [ | y l IH]; cbn [JS.insert]; [reflexivity | ].
  destruct (JS.gt (cmp x y) 0); [ | reflexivity].
  rewrite perm_swap. apply perm_skip, IH.
Qed.

Lemma sort_Permutation {A : Type} (cmp : A -> A -> JS.number) l :
  Permutation l (JS.sort cmp l).
Proof.
  induction l as [ | x l IH]; [reflexivity | ].
  cbn [JS.sort fold_right]. fold (JS.sort cmp l).
  rewrite <- insert_Permutation. apply perm_skip, IH.
Qed.

Lemma insert_map {A B : Type} (f : A -> B) (cmp : B -> B -> JS.number) x l :
  map f (JS.insert (fun a b => cmp (f a) (f b)) x l) = JS.insert cmp (f x) (map f l).
Proof.
  induction l as [ | y l IH]; cbn [JS.insert map]; [reflexivity | ].
  destruct (JS.gt (cmp (f x) (f y)) 0); cbn [map]; [rewrite IH | ]; reflexivity.
Qed.

Lemma sort_map {A B : Type} (f : A -> B) (cmp : B -> B -> JS.number) l :
  map f (JS.sort (fun a b => cmp (f a) (f b)) l) = JS.sort cmp (map f l).
Proof.
  induction l as [ | x l IH]; [reflexivity | ].
  cbn [JS.sort fold_right map].
  fold (JS.sort (fun a b => cmp (f a) (f b)) l). fold (JS.sort cmp (map f l)).
  rewrite insert_map, IH. reflexivity.
Qed.

Section SortByKey.
Variable key : CoinMetrics -> JS.number.
Let cmp (a b : CoinMetrics) : JS.number := key b - key a.
Let R (a b : CoinMetrics) : Prop := (key b <=? key a) = true.

Lemma HdRel_insert y x l :
  HdRel R y l -> R y x -> HdRel R y (JS.insert cmp x l).
Proof.
  intros Hl Hx. destruct l as [ | z l]; cbn [JS.insert]; [constructor; exact Hx | ].
  destruct (JS.gt (cmp x z) 0); constructor; [ | exact Hx].
  inversion Hl; assumption.
Qed.

Lemma insert_descending x l :
  is_nan (key x) = false -> no_NaN key l ->
  descending key l -> descending key (JS.insert cmp x l).
Proof.
  unfold descending. fold R. intros Hx Hl Hs.
  induction l as [ | y l IH]; cbn [JS.insert]; [repeat constructor | ].
  inversion Hl as [ | y' l' Hy Hl']; subst.
  inversion Hs as [ | y' l' Hs' Hd]; subst.
  destruct (JS.gt (cmp x y) 0) eqn:E; unfold JS.gt, cmp in E;
    rewrite (float_sub_sign (key x) (key y) Hx Hy) in E.
  - constructor; [apply IH; assumption | ].
    apply HdRel_insert; [exact Hd | ]. unfold R. apply ltb_leb, E.
  - constructor; [exact Hs | ]. constructor. unfold R.
    apply not_ltb_geb; assumption.
Qed.

Lemma sort_descending l : no_NaN key l -> descending key (JS.sort cmp l).
Proof.
  induction l as [ | x l IH]; intros Hl; [constructor | ].
  inversion Hl; subst. cbn [JS.sort fold_right]. fold (JS.sort cmp l).
  apply insert_descending; [assumption | | apply IH; assumption].
  unfold no_NaN. eapply Permutation_Forall; [apply sort_Permutation | assumption].
Qed.
End SortByKey.

Lemma sortedMetrics_Permutation metrics sortBy :
  Permutation metrics (sortedMetrics metrics sortBy).
Proof.
  unfold sortedMetrics.
  repeat match goal with |- context [String.eqb ?a ?b] => destruct (String.eqb a b) end;
    try apply sort_Permutation; reflexivity.
Qed.

(** A market priced 0 on both days has a percent change of [NaN]; next to
    such a record no arrangement is in non-increasing order, and [sort]
    leaves the two records as they are. *)
Lemma sortedMetrics_NaN_change :
  is_nan (priceChangePercent
            (buildMetrics ada (series [0; 0]) (candle_at 0) (candle_at 0))) = true /\
  sortedMetrics [steady; zero_priced] "change" = [steady; zero_priced] /\
  ~ descending priceChangePercent (sortedMetrics [steady; zero_priced] "change") /\
  (forall l, Permutation [steady; zero_priced] l ->
             ~ descending priceChangePercent l).
Proof.
  split; [reflexivity | ]. split; [reflexivity | ].
  assert (H : forall l, Permutation [steady; zero_priced] l ->
                        ~ descending priceChangePercent l).
  { intros l Hp Hs. apply Permutation_length_2_inv in Hp.
    destruct Hp as [-> | ->];
      inversion Hs as [ | a l _ Hd]; subst;
      inversion Hd as [ | b l' Hr]; subst; vm_compute in Hr; discriminate. }
  split; [ | exact H].
  apply H, sortedMetrics_Permutation.
Qed.

(** C9 (amended): the records rendered by [generateDashboard] are those of
    [sortedMetrics], a permutation of the input; for the keys "volume",
    "rsi" and "change" they are in non-increasing order of [volume24h],
    [rsi] and [priceChangePercent] when no record has [NaN] in that field;
    for any other key they are in the input order. *)
Theorem generateDashboard_order row_html page_html metrics sortBy :
  generateDashboard row_html page_html metrics sortBy
  = render row_html page_html (sortedMetrics metrics sortBy) sortBy /\
  Permutation metrics (sortedMetrics metrics sortBy) /\
  (sortBy = "volume" -> no_NaN volume24h metrics ->
   descending volume24h (sortedMetrics metrics sortBy)) /\
  (sortBy = "rsi" -> no_NaN rsi metrics ->
   descending rsi (sortedMetrics metrics sortBy)) /\
  (sortBy = "change" -> no_NaN priceChangePercent metrics ->
   descending priceChangePercent (sortedMetrics metrics sortBy)) /\
  (sortBy <> "volume" -> sortBy <> "rsi" -> sortBy <> "change" ->
   sortedMetrics metrics sortBy = metrics).
Proof.
  split; [reflexivity | ]. split; [apply sortedMetrics_Permutation | ].
  split; [ | split; [ | split]].
  - intros -> H. apply (sort_descending volume24h), H.
  - intros -> H. apply (sort_descending rsi), H.
  - intros -> H. apply (sort_descending priceChangePercent), H.
  - intros H1 H2 H3. unfold sortedMetrics.
    destruct (String.eqb_spec sortBy "volume"); [contradiction | ].
    destruct (String.eqb_spec sortBy "rsi"); [contradiction | ].
    destruct (String.eqb_spec sortBy "change"); [contradiction | ].
    reflexivity.
Qed.

Lemma generateDashboard_order_witness :
  no_NaN rsi [busy; steady] /\
  descending rsi (sortedMetrics [busy; steady] "rsi").
Proof.
  assert (H : no_NaN rsi [busy; steady]) by (repeat constructor).
  split; [exact H | ].
  exact (proj1 (proj2 (proj2 (proj2
           (generateDashboard_order (fun _ => "") (fun _ rows => rows)
              [busy; steady] "rsi")))) eq_refl H).
Defined.

(** ** The caller's array *)

Lemma sort_in_place_fresh h a elems cmp :
  arrays h !! a = Some elems ->
  sort_in_place h a cmp
  = mkHeap (objects h)
           (<[a := JS.sort (fun x y => cmp (deref h x) (deref h y)) elems]> (arrays h)).
Proof. intros H. unfold sort_in_place. rewrite H. reflexivity. Qed.

(** C10: [generateDashboard] sorts a copy: when it returns, the caller's
    array has the elements it had, in the same order, every record is
    unchanged, and so is every other array; the page is the one computed
    from the records of the array. *)
Theorem generateDashboard_keeps_argument row_html page_html h metrics sortBy elems :
  arrays h !! metrics = Some elems ->
  exists html h',
    generateDashboard_heap row_html page_html h metrics sortBy = Some (html, h') /\
    arrays h' !! metrics = Some elems /\
    objects h' = objects h /\
    (forall a, is_Some (arrays h !! a) -> arrays h' !! a = arrays h !! a) /\
    html = generateDashboard row_html page_html (map (deref h) elems) sortBy.
Proof.
  intros Hm. unfold generateDashboard_heap. rewrite Hm.
  set (f := fresh (dom (arrays h))).
  assert (Hf : arrays h !! f = None) by (apply not_elem_of_dom, is_fresh).
  set (h1 := mkHeap (objects h) (<[f := elems]> (arrays h))).
  assert (H1 : arrays h1 !! f = Some elems) by (apply lookup_insert_eq).
  assert (Hold : forall l a, is_Some (arrays h !! a) ->
                   <[f := l]> (arrays h1) !! a = arrays h !! a).
  { intros l a [v Ha]. assert (a <> f) by congruence.
    cbn [arrays h1]. rewrite !lookup_insert_ne by congruence. reflexivity. }
  assert (Hold1 : forall a, is_Some (arrays h !! a) -> arrays h1 !! a = arrays h !! a).
  { intros a [v Ha]. assert (a <> f) by congruence.
    cbn [arrays h1]. rewrite lookup_insert_ne by congruence. reflexivity. }
  unfold generateDashboard, sortedMetrics.
  eexists. eexists. split; [reflexivity | ].
  destruct (String.eqb sortBy "volume");
    [ | destruct (String.eqb sortBy "rsi"); [ | destruct (String.eqb sortBy "change")]];
    rewrite ?(sort_in_place_fresh h1 f elems _ H1); cbn [arrays objects];
    rewrite ?lookup_insert_eq; cbn [default];
    (split; [first [rewrite Hold by eauto | rewrite Hold1 by eauto]; exact Hm | ]);
    (split; [reflexivity | ]);
    (split; [intros a Ha; first [apply Hold, Ha | apply Hold1, Ha] | ]);
    try (rewrite H1; cbn [default]);
    f_equal; try apply (sort_map (deref h)); reflexivity.
Qed.

Lemma generateDashboard_keeps_argument_witness :
  arrays example_heap !! 3%positive = Some [1%positive; 2%positive] /\
  exists html h',
    generateDashboard_heap (fun _ => "") (fun _ rows => rows) example_heap 3%positive "rsi"
    = Some (html, h') /\
    arrays h' !! 3%positive = Some [1%positive; 2%positive] /\
    objects h' = objects example_heap /\
    (forall a, is_Some (arrays example_heap !! a) ->
               arrays h' !! a = arrays example_heap !! a) /\
    html = generateDashboard (fun _ => "") (fun _ rows => rows)
             (map (deref example_heap) [1%positive; 2%positive]) "rsi".
Proof.
  assert (H : arrays example_heap !! 3%positive = Some [1%positive; 2%positive])
    by reflexivity.
  split; [exact H | ].
  exact (generateDashboard_keeps_argument (fun _ => "") (fun _ rows => rows)
           example_heap 3%positive "rsi" _ H).
Defined.

End DashboardFacts.

(* ===================================================================== *)
(** * Further properties: the aggregator, [fetchUpbitAPI] and the handler *)
(* ===================================================================== *)

Section AggregatorMore.

Lemma filter_sublist {A : Type} (f : A -> bool) (l : list A) :
  sublist (List.filter f l) l.
Proof.
  induction l as [ | x l IH]; cbn [List.filter]; [constructor | ].
  destruct (f x); [apply sublist_skip | apply sublist_cons]; exact IH.
Qed.

Lemma map_sublist {A B : Type} (f : A -> B) (l k : list A) :
  sublist l k -> sublist (map f l) (map f k).
Proof.
  induction 1; cbn [map]; [constructor | apply sublist_skip | apply sublist_cons];
    assumption.
Qed.

Lemma In_firstn {A : Type} (n : nat) (l : list A) (x : A) :
  In x (firstn n l) -> In x l.
Proof.
  revert l. induction n as [ | n IH]; intros [ | y l]; cbn [firstn In]; try tauto.
  intros [H | H]; [left; exact H | right; apply IH, H].
Qed.

Lemma krwMarkets_sublist markets : sublist (krwMarkets markets) markets.
Proof.
  unfold krwMarkets. etransitivity; [apply sublist_take | apply filter_sublist].
Qed.

Lemma krwMarkets_prefix markets m :
  In m (krwMarkets markets) -> String.prefix "KRW-" (info_market m) = true.
Proof.
  unfold krwMarkets. intros H.
  assert (Hin : In m (List.filter (fun m => String.prefix "KRW-" (info_market m)) markets)).
  { apply (In_firstn 30), H. }
  apply filter_In in Hin. tauto.
Qed.

Lemma krwMarkets_length markets : (length (krwMarkets markets) <= 30)%nat.
Proof. unfold krwMarkets. rewrite length_firstn. lia. Qed.

Lemma filter_all {A : Type} (f : A -> bool) (l : list A) :
  (forall x, In x l -> f x = true) -> List.filter f l = l.
Proof.
  induction l as [ | x l IH]; intros H; [reflexivity | ].
  cbn [List.filter]. rewrite (H x (or_introl eq_refl)). f_equal.
  apply IH. intros y Hy. apply H. right. exact Hy.
Qed.

(** X1: the candidates are at most 30 markets of the upstream list, in the
    order of that list, each with an identifier that starts with "KRW-";
    selecting the candidates among the candidates changes nothing. *)
Theorem krwMarkets_candidates markets :
  (length (krwMarkets markets) <= 30)%nat /\
  Forall (fun m => String.prefix "KRW-" (info_market m) = true) (krwMarkets markets) /\
  sublist (krwMarkets markets) markets /\
  krwMarkets (krwMarkets markets) = krwMarkets markets.
Proof.
  split; [apply krwMarkets_length | ]. split.
  { apply List.Forall_forall. intros m. apply krwMarkets_prefix. }
  split; [apply krwMarkets_sublist | ].
  unfold krwMarkets at 1.
  rewrite filter_all by (intros m; apply krwMarkets_prefix).
  apply firstn_all2. apply krwMarkets_length.
Qed.

Lemma non_null_markets up (l : list MarketInfo) :
  sublist (map market (non_null (map (marketMetrics up) l))) (map info_market l).
Proof.
  induction l as [ | m l IH]; cbn [map non_null]; [constructor | ].
  destruct (marketMetrics up m) as [r | ] eqn:Hr; cbn [map].
  - rewrite (marketMetrics_market _ _ _ Hr). apply sublist_skip, IH.
  - apply sublist_cons, IH.
Qed.

(** X2: when [getCoinMetrics] resolves, it holds at most 30 records, every
    record is of a "KRW-" market, and the records come in the order of the
    upstream market list, whatever the order in which the fetches end. *)
Theorem getCoinMetrics_output up markets out :
  fetch_markets up "/v1/market/all" = Fulfilled markets ->
  getCoinMetrics up = Fulfilled out ->
  (length out <= 30)%nat /\
  Forall (fun r => String.prefix "KRW-" (market r) = true) out /\
  sublist (map market out) (map info_market markets).
Proof.
  intros Hm. unfold getCoinMetrics. rewrite Hm. intros H. injection H as <-.
  pose proof (non_null_markets up (krwMarkets markets)) as Hsub.
  split.
  - apply sublist_length in Hsub. rewrite !length_map in Hsub.
    pose proof (krwMarkets_length markets). lia.
  - split.
    + apply List.Forall_forall. intros r Hr.
      apply In_non_null, in_map_iff in Hr. destruct Hr as (m & Hr & Hin).
      rewrite (marketMetrics_market _ _ _ Hr). apply (krwMarkets_prefix _ _ Hin).
    + etransitivity; [exact Hsub | ]. apply map_sublist, krwMarkets_sublist.
Qed.

Lemma getCoinMetrics_output_witness :
  fetch_markets example_upstream "/v1/market/all" = Fulfilled example_markets /\
  getCoinMetrics example_upstream
  = Fulfilled (non_null (map (marketMetrics example_upstream)
                             (krwMarkets example_markets))) /\
  (length (non_null (map (marketMetrics example_upstream)
                         (krwMarkets example_markets))) <= 30)%nat.
Proof.
  assert (H1 : fetch_markets example_upstream "/v1/market/all"
               = Fulfilled example_markets) by reflexivity.
  assert (H2 : getCoinMetrics example_upstream
               = Fulfilled (non_null (map (marketMetrics example_upstream)
                                          (krwMarkets example_markets))))
    by reflexivity.
  split; [exact H1 | ]. split; [exact H2 | ].
  exact (proj1 (getCoinMetrics_output _ _ _ H1 H2)).
Defined.

(** ** [fetchUpbitAPI] *)

Lemma fetchUpbitAPI_not_ok {A : Type} (fetch : string -> outcome (HttpResponse A))
    endpoint response :
  fetch ("https://api.upbit.com" ++ endpoint) = Fulfilled response ->
  ok response = false ->
  fetchUpbitAPI fetch endpoint
  = Rejected ("Upbit API 오류: " ++ decimal (status response)).
Proof. intros H Hok. unfold fetchUpbitAPI. rewrite H, Hok. reflexivity. Qed.

(** X3: a market whose candle request is answered with a status that is not
    ok has no record, and the batch still resolves. *)
Theorem http_error_drops_market t markets m response :
  fetch_markets (upstream_of t) "/v1/market/all" = Fulfilled markets ->
  http_candles t ("https://api.upbit.com" ++ candles_endpoint (info_market m))
  = Fulfilled response ->
  ok response = false ->
  exists out,
    getCoinMetrics (upstream_of t) = Fulfilled out /\
    forall r, In r out -> market r <> info_market m.
Proof.
  intros Hm Hc Hok. unfold getCoinMetrics. rewrite Hm.
  eexists. split; [reflexivity | ].
  intros r Hr Heq. apply In_non_null, in_map_iff in Hr. destruct Hr as (m' & Hr & _).
  pose proof (marketMetrics_market _ _ _ Hr) as Hmk.
  unfold marketMetrics in Hr. rewrite <- Hmk, Heq in Hr.
  cbn [upstream_of fetch_candles] in Hr.
  rewrite (fetchUpbitAPI_not_ok _ _ _ Hc Hok) in Hr. discriminate.
Qed.

Lemma http_error_drops_market_witness :
  fetch_markets (upstream_of throttled) "/v1/market/all" = Fulfilled example_markets /\
  http_candles throttled ("https://api.upbit.com" ++ candles_endpoint (info_market btc))
  = Fulfilled (mkHttpResponse false 429 (Rejected "unused")) /\
  ok (mkHttpResponse false 429 (@Rejected (list CandleData) "unused")) = false /\
  exists out,
    getCoinMetrics (upstream_of throttled) = Fulfilled out /\
    forall r, In r out -> market r <> info_market btc.
Proof.
  assert (H1 : fetch_markets (upstream_of throttled) "/v1/market/all"
               = Fulfilled example_markets) by reflexivity.
  assert (H2 : http_candles throttled
                 ("https://api.upbit.com" ++ candles_endpoint (info_market btc))
               = Fulfilled (mkHttpResponse false 429 (Rejected "unused")))
    by reflexivity.
  assert (H3 : ok (mkHttpResponse false 429 (@Rejected (list CandleData) "unused"))
               = false) by reflexivity.
  split; [exact H1 | ]. split; [exact H2 | ]. split; [exact H3 | ].
  exact (http_error_drops_market throttled example_markets btc _ H1 H2 H3).
Defined.

(** ** The handler *)

(** X5: when the market list request is answered with a status [s] that is
    not ok, every path answers with status 500, a plain-text content type
    and a body that ends with the message of [fetchUpbitAPI] for [s]. *)
Theorem handler_upstream_status stringify row_html page_html t url response :
  http_markets t "https://api.upbit.com/v1/market/all" = Fulfilled response ->
  ok response = false ->
  handler stringify row_html page_html (upstream_of t) (Fulfilled url)
  = mkResponse ("오류 발생: " ++ "Upbit API 오류: " ++ decimal (status response)) 500
               [("Content-Type", "text/plain; charset=utf-8")].
Proof.
  intros H Hok. unfold handler, getCoinMetrics.
  cbn [upstream_of fetch_markets].
  rewrite (fetchUpbitAPI_not_ok (http_markets t) "/v1/market/all" response H Hok).
  destruct (String.eqb (pathname url) "/api/metrics"); reflexivity.
Qed.

Lemma handler_upstream_status_witness :
  http_markets unavailable "https://api.upbit.com/v1/market/all"
  = Fulfilled (mkHttpResponse false 503 (Rejected "unused")) /\
  ok (mkHttpResponse false 503 (@Rejected (list MarketInfo) "unused")) = false /\
  handler (fun _ => "[]") (fun _ => "") (fun _ rows => rows) (upstream_of unavailable)
          (Fulfilled (mkURL "/" []))
  = mkResponse ("오류 발생: " ++ "Upbit API 오류: " ++ decimal 503) 500
               [("Content-Type", "text/plain; charset=utf-8")].
Proof.
  assert (H1 : http_markets unavailable "https://api.upbit.com/v1/market/all"
               = Fulfilled (mkHttpResponse false 503 (Rejected "unused")))
    by reflexivity.
  assert (H2 : ok (mkHttpResponse false 503 (@Rejected (list MarketInfo) "unused"))
               = false) by reflexivity.
  split; [exact H1 | ]. split; [exact H2 | ].
  exact (handler_upstream_status _ _ _ unavailable (mkURL "/" []) _ H1 H2).
Defined.

(** X6: a request without a [sort] parameter, or with an empty one, is
    answered as a request with [sort=volume]; the feed at [/api/metrics]
    does not depend on the parameters at all. *)
Theorem handler_default_sort stringify row_html page_html up path params :
  (searchParams_get params "sort" = None \/ searchParams_get params "sort" = Some "" ->
   handler stringify row_html page_html up (Fulfilled (mkURL path params))
   = handler stringify row_html page_html up
       (Fulfilled (mkURL path [("sort", "volume")]))) /\
  handler stringify row_html page_html up (Fulfilled (mkURL "/api/metrics" params))
  = handler stringify row_html page_html up (Fulfilled (mkURL "/api/metrics" [])).
Proof.
  split; [ | reflexivity].
  intros H. unfold handler, sort_parameter. cbn [pathname searchParams].
  destruct H as [-> | ->]; reflexivity.
Qed.

Lemma handler_default_sort_witness :
  (searchParams_get [("page", "2"); ("sort", "")] "sort" = None \/
   searchParams_get [("page", "2"); ("sort", "")] "sort" = Some "") /\
  handler (fun _ => "[]") (fun _ => "") (fun _ rows => rows) example_upstream
          (Fulfilled (mkURL "/" [("page", "2"); ("sort", "")]))
  = handler (fun _ => "[]") (fun _ => "") (fun _ rows => rows) example_upstream
      (Fulfilled (mkURL "/" [("sort", "volume")])).
Proof.
  assert (H : searchParams_get [("page", "2"); ("sort", "")] "sort" = None \/
              searchParams_get [("page", "2"); ("sort", "")] "sort" = Some "")
    by (right; reflexivity).
  split; [exact H | ].
  exact (proj1 (handler_default_sort _ _ _ example_upstream "/" _) H).
Defined.

End AggregatorMore.

(* ===================================================================== *)
(** * Further properties: [calculateRSI] and the records *)
(* ===================================================================== *)

Section RSIMore.
Import B64 B64Facts NumFacts.

Lemma of_Z_0 : JS.of_Z 0 = 0.
Proof. reflexivity. Qed.

(** [Math.round] of a number between 0 and 10000 is an integer between 0
    and 10000. *)
Lemma Math_round_integer w :
  SFwithin 10000 (Prim2SF w) ->
  exists n, (0 <= n <= 10000)%Z /\ JS.Math_round w = JS.of_Z n.
Proof.
  intros Hw. pose proof (Prim2SF_valid w) as Vw. unfold JS.Math_round.
  destruct (Prim2SF w) as [s | s | | s m e] eqn:E;
    try (destruct Hw as (Hf & _); discriminate).
  - destruct Hw as (_ & Ns & _). destruct s; [discriminate | ].
    exists 0%Z. split; [lia | ]. rewrite of_Z_0. apply Prim2SF_inj. rewrite E. reflexivity.
  - destruct Hw as (_ & Ns & Hle). destruct s; [discriminate | ].
    cbn [cond_Zopp SF2R] in Hle |- *. cbn [valid_binary] in Vw.
    destruct (bounded_bounds m e Vw) as (He & Hm53 & Hm52).
    destruct (Z.leb_spec 0 e) as [He0 | He0].
    + exfalso. specialize (Hm52 ltac:(lia)).
      apply IZR_le in Hm52. change (2 ^ 52)%Z with 4503599627370496%Z in Hm52.
      assert (bpow 0 <= bpow e)%R by (apply bpow_le; lia). rewrite bpow_0 in H.
      pose proof (bpow_pos e). nra.
    + set (k := (2 ^ (- e))%Z).
      assert (Hk : (0 < k)%Z) by (apply Z.pow_pos_nonneg; lia).
      assert (H2k : (2 ^ (1 - e) = 2 * k)%Z).
      { unfold k. replace (1 - e)%Z with (Z.succ (- e)) by lia. apply Z.pow_succ_r. lia. }
      rewrite H2k.
      assert (Hm : (Zpos m <= 10000 * k)%Z).
      { apply le_IZR. rewrite mult_IZR. unfold k. rewrite <- bpow_IZR by lia.
        replace e with (- (- e))%Z in Hle by lia. rewrite bpow_opp in Hle.
        pose proof (bpow_pos (- e)) as Hp.
        apply Rmult_le_reg_r with (/ bpow (- e))%R; [apply Rinv_0_lt_compat, Hp | ].
        rewrite Rmult_assoc, Rinv_r by lra. lra. }
      set (n := ((2 * Zpos m + k) / (2 * k))%Z).
      assert (Hn0 : (0 <= n)%Z) by (apply Z.div_pos; lia).
      assert (Hn1 : (n < 10001)%Z) by (apply Z.div_lt_upper_bound; lia).
      destruct (Z.eqb_spec n 0) as [_ | Hne].
      * exists 0%Z. split; [lia | reflexivity].
      * exists n. split; [lia | reflexivity].
Qed.

(** X7: the value returned by [calculateRSI] is [NaN] or a number of
    hundredths, [n / 100] for an integer [n] from 0 to 10000. *)
Theorem calculateRSI_hundredths candles period :
  is_nan (calculateRSI candles period) = true \/
  exists n, (0 <= n <= 10000)%Z /\ calculateRSI candles period = JS.of_Z n / 100.
Proof.
  destruct (Nat.ltb_spec (length candles) (period + 1)) as [Hlt | Hge].
  - right. exists 5000%Z. split; [lia | ]. unfold calculateRSI.
    destruct (Nat.ltb_spec (length candles) (period + 1)); [reflexivity | lia].
  - rewrite calculateRSI_unfold by exact Hge.
    pose proof (fold_rsi_step_signs (first_changes candles period) (0, 0) eq_refl
                  (or_introl eq_refl)) as [Hg Hl].
    destruct (fold_left rsi_step (first_changes candles period) (0, 0)) as [gains losses].
    cbn [fst snd] in Hg, Hl. cbv zeta.
    destruct (JS.strict_eq (losses / JS.of_nat period) 0).
    { right. exists 10000%Z. split; [lia | reflexivity]. }
    assert (Hp : SFnonneg_or_nan (Prim2SF (JS.of_nat period)))
      by (left; apply of_nat_nonneg).
    assert (Hrs : SFnonneg_or_nan
                    (Prim2SF (gains / JS.of_nat period / (losses / JS.of_nat period)))).
    { rewrite !FloatAxioms.div_spec.
      apply SFdiv_nonneg_or_nan; apply SFdiv_nonneg_or_nan; auto. left. exact Hg. }
    destruct Hrs as [Hrs | Hrs].
    + right. destruct (add_1_lower _ Hrs) as [Nt Ht].
      pose proof (mul_by_100 _ (sub_from_100 _ (div_100_by _ Nt Ht))) as Hw.
      destruct (Math_round_integer _ Hw) as (n & Hn & ->). exists n. split; [exact Hn | reflexivity].
    + left. apply rsi_formula_nan, Hrs.
Qed.

(** ** A series that never rises *)

Lemma leb_zero_not_gt c : (c <=? 0) = true -> (0 <? c) = false.
Proof.
  rewrite FloatAxioms.leb_spec, FloatAxioms.ltb_spec, Prim2SF_0.
  destruct (Prim2SF c) as [[|] | [|] | | [|] m e]; intros; try discriminate; reflexivity.
Qed.

Lemma leb_zero_not_nan c : (c <=? 0) = true -> is_nan c = false.
Proof.
  intros H. apply is_nan_false. intros E.
  rewrite FloatAxioms.leb_spec, E in H. discriminate.
Qed.

Lemma fold_no_gain changes : forall g,
  Forall (fun c => (c <=? 0) = true) changes ->
  fold_left (fun g c => if JS.gt c 0 then g + c else g) changes g = g.
Proof.
  induction changes as [ | c changes IH]; intros g H; [reflexivity | ].
  inversion H; subst. cbn [fold_left]. unfold JS.gt at 2.
  rewrite leb_zero_not_gt by assumption. apply IH. assumption.
Qed.

Lemma zero_div_period period : (1 <= period)%nat -> 0 / JS.of_nat period = 0.
Proof.
  intros Hp. apply Prim2SF_inj.
  rewrite FloatAxioms.div_spec, Prim2SF_0. unfold JS.of_nat. rewrite Prim2SF_of_Z.
  destruct (Z.of_nat period) as [ | p | p] eqn:E; try lia. apply SFdiv_zero_int.
Qed.

Lemma zero_div_pos x : (0 <? x) = true -> 0 / x = 0 /\ (x =? 0) = false.
Proof.
  rewrite FloatAxioms.ltb_spec, FloatAxioms.eqb_spec, Prim2SF_0. intros H. split.
  - apply Prim2SF_inj. rewrite FloatAxioms.div_spec, Prim2SF_0.
    destruct (Prim2SF x) as [[|] | [|] | | [|] m e]; try discriminate; reflexivity.
  - destruct (Prim2SF x) as [[|] | [|] | | [|] m e]; try discriminate; reflexivity.
Qed.

(** X8: for a period of at least 1, a series of at least [period + 1]
    observations whose first [period] changes are all at most zero and whose
    average loss is positive has an RSI of exactly 0. *)
Theorem calculateRSI_all_losses candles period :
  (1 <= period)%nat -> (period + 1 <= length candles)%nat ->
  Forall (fun c => (c <=? 0) = true) (first_changes candles period) ->
  JS.gt (spec_avgLoss candles period) 0 = true ->
  calculateRSI candles period = 0.
Proof.
  intros Hp Hlen Hall Hloss. rewrite calculateRSI_unfold by exact Hlen.
  rewrite fold_rsi_step_split;
    [ | eapply Forall_impl; [exact Hall | intros c; apply leb_zero_not_nan]
      | rewrite Prim2SF_0; discriminate].
  rewrite fold_no_gain by exact Hall.
  unfold spec_avgLoss, spec_losses, JS.gt in Hloss. cbv zeta.
  destruct (zero_div_pos _ Hloss) as [Hrs Hne].
  unfold JS.strict_eq. rewrite Hne, (zero_div_period period Hp), Hrs. reflexivity.
Qed.

Lemma calculateRSI_all_losses_witness :
  (1 <= 2)%nat /\ (2 + 1 <= length three_falling)%nat /\
  Forall (fun c => (c <=? 0) = true) (first_changes three_falling 2) /\
  JS.gt (spec_avgLoss three_falling 2) 0 = true /\
  calculateRSI three_falling 2 = 0.
Proof.
  assert (H1 : (1 <= 2)%nat) by lia.
  assert (H2 : (2 + 1 <= length three_falling)%nat) by (simpl; lia).
  assert (H3 : Forall (fun c => (c <=? 0) = true) (first_changes three_falling 2))
    by (repeat constructor).
  assert (H4 : JS.gt (spec_avgLoss three_falling 2) 0 = true) by reflexivity.
  split; [exact H1 | ]. split; [exact H2 | ]. split; [exact H3 | ]. split; [exact H4 | ].
  exact (calculateRSI_all_losses _ _ H1 H2 H3 H4).
Defined.

(** ** Markets with few candles *)

(** X9: a market for which 2 to 14 candles came back has a record whose RSI
    is the neutral 50, and its RSI badge has the neutral colour. *)
Theorem sparse_market_is_neutral up m candles :
  fetch_candles up (candles_endpoint (info_market m)) = Fulfilled candles ->
  (2 <= length candles <= 14)%nat ->
  exists r,
    marketMetrics up m = Some r /\ rsi r = 50 /\
    forall index, row_rsiColor (rowOf index r) = "#6b7280".
Proof.
  intros Hc Hlen. rewrite (marketMetrics_fulfilled _ _ _ Hc).
  destruct candles as [ | c0 [ | c1 rest]]; try (simpl in Hlen; lia).
  eexists. split; [reflexivity | ].
  assert (H50 : rsi (buildMetrics m (c0 :: c1 :: rest) c0 c1) = 50).
  { cbn [buildMetrics rsi]. unfold calculateRSI, default_period.
    destruct (Nat.ltb_spec (length (c0 :: c1 :: rest)) (14 + 1)); [reflexivity | lia]. }
  split; [exact H50 | ].
  intros index. unfold rowOf. cbn [row_rsiColor]. rewrite H50. reflexivity.
Qed.

Lemma sparse_market_is_neutral_witness :
  fetch_candles example_upstream (candles_endpoint (info_market eth))
  = Fulfilled three_rising /\
  (2 <= length three_rising <= 14)%nat /\
  exists r,
    marketMetrics example_upstream eth = Some r /\ rsi r = 50 /\
    forall index, row_rsiColor (rowOf index r) = "#6b7280".
Proof.
  assert (H1 : fetch_candles example_upstream (candles_endpoint (info_market eth))
               = Fulfilled three_rising) by reflexivity.
  assert (H2 : (2 <= length three_rising <= 14)%nat) by (simpl; lia).
  split; [exact H1 | ]. split; [exact H2 | ].
  exact (sparse_market_is_neutral _ _ _ H1 H2).
Defined.

End RSIMore.

(* ===================================================================== *)
(** * Further properties: the price change of a record and its row *)
(* ===================================================================== *)

Section ChangeFacts.
Import B64 B64Facts NumFacts.

Lemma finite_nonzero_spec p :
  is_finite p = true -> JS.strict_eq p 0 = false ->
  exists s m e, Prim2SF p = S754_finite s m e.
Proof.
  unfold is_finite, JS.strict_eq, is_infinity. intros Hf Hz.
  apply negb_true_iff, orb_false_iff in Hf. destruct Hf as [Hn Hi].
  apply is_nan_false in Hn.
  rewrite FloatAxioms.eqb_spec, FloatAxioms.abs_spec in Hi.
  rewrite FloatAxioms.eqb_spec, Prim2SF_0 in Hz.
  change (Prim2SF infinity) with (S754_infinity false) in Hi.
  destruct (Prim2SF p) as [s | s | | s m e]; try congruence.
  - destruct s; discriminate.
  - discriminate.
  - eauto.
Qed.

Lemma sub_self p s m e : Prim2SF p = S754_finite s m e -> p - p = 0.
Proof.
  intros E. apply Prim2SF_inj. rewrite FloatAxioms.sub_spec, E, Prim2SF_0.
  destruct (SFsub_finite s m e s m e) as (D & HD & Hv). unfold SF64sub. rewrite HD.
  assert (D = 0%Z) as ->.
  { apply eq_IZR. pose proof (bpow_pos (Z.min e e)) as Hp.
    assert (IZR D * bpow (Z.min e e) = 0)%R by lra.
    apply Rmult_integral in H. destruct H; [exact H | lra]. }
  reflexivity.
Qed.

Lemma zero_percent p s m e :
  Prim2SF p = S754_finite s m e -> (0 / p * 100 =? 0) = true /\ (0 <? 0 / p * 100) = false.
Proof.
  intros E.
  rewrite FloatAxioms.eqb_spec, FloatAxioms.ltb_spec, FloatAxioms.mul_spec,
    FloatAxioms.div_spec, E, Prim2SF_0, Prim2SF_100.
  destruct s; split; reflexivity.
Qed.

(** X10: when the two newest candles have the same finite, non-zero price,
    the record has a change of 0 and a percentage equal to 0, and its row is
    shown in the falling colour, without a plus sign. *)
Theorem unchanged_price_row m candles c0 c1 index :
  trade_price c0 = trade_price c1 ->
  is_finite (trade_price c1) = true ->
  JS.strict_eq (trade_price c1) 0 = false ->
  let r := buildMetrics m candles c0 c1 in
  priceChange24h r = 0 /\
  JS.strict_eq (priceChangePercent r) 0 = true /\
  row_changeColor (rowOf index r) = "#ef4444" /\
  row_changeSign (rowOf index r) = "".
Proof.
  intros Heq Hf Hz r.
  destruct (finite_nonzero_spec _ Hf Hz) as (s & mp & e & E).
  assert (Hd : priceChange24h r = 0).
  { subst r. cbn [buildMetrics priceChange24h]. rewrite Heq. exact (sub_self _ _ _ _ E). }
  assert (Hp : priceChangePercent r = 0 / trade_price c1 * 100).
  { subst r. cbn [buildMetrics priceChangePercent]. rewrite Heq, (sub_self _ _ _ _ E).
    reflexivity. }
  destruct (zero_percent _ _ _ _ E) as [Hpz Hpg].
  split; [exact Hd | ]. unfold rowOf, JS.strict_eq, JS.gt.
  cbn [row_changeColor row_changeSign]. rewrite Hp, Hpz, Hpg. auto.
Qed.

Lemma unchanged_price_row_witness :
  trade_price (candle_at 7) = trade_price (candle_at 7) /\
  is_finite (trade_price (candle_at 7)) = true /\
  JS.strict_eq (trade_price (candle_at 7)) 0 = false /\
  let r := buildMetrics btc flat_days (candle_at 7) (candle_at 7) in
  priceChange24h r = 0 /\
  JS.strict_eq (priceChangePercent r) 0 = true /\
  row_changeColor (rowOf 0 r) = "#ef4444" /\
  row_changeSign (rowOf 0 r) = "".
Proof.
  assert (H1 : trade_price (candle_at 7) = trade_price (candle_at 7))
    by reflexivity.
  assert (H2 : is_finite (trade_price (candle_at 7)) = true) by reflexivity.
  assert (H3 : JS.strict_eq (trade_price (candle_at 7)) 0 = false) by reflexivity.
  split; [exact H1 | ]. split; [exact H2 | ]. split; [exact H3 | ].
  exact (unchanged_price_row btc flat_days _ _ 0 H1 H2 H3).
Defined.

(** ** The sign of the percentage *)

Lemma rounds_to_positive s f x :
  rounds_to s f x -> SFltb (S754_zero false) f = true -> s = false.
Proof.
  destruct f as [s' | s' | | s' m e]; cbn [rounds_to]; intros H Hlt.
  - discriminate.
  - destruct H as [<- _]. destruct s'; [discriminate | reflexivity].
  - contradiction.
  - destruct H as [<- _]. destruct s'; [discriminate | reflexivity].
Qed.

Lemma positive_cases y :
  SFltb (S754_zero false) y = true ->
  y = S754_infinity false \/ exists m e, y = S754_finite false m e.
Proof.
  destruct y as [[|] | [|] | | [|] m e]; try discriminate; intros _; eauto.
Qed.

Lemma SFmul_positive x y :
  valid_binary x = true -> valid_binary y = true ->
  SFltb (S754_zero false) y = true ->
  SFltb (S754_zero false) (SF64mul x y) = true ->
  SFltb (S754_zero false) x = true.
Proof.
  intros Vx Vy Hy H. unfold SF64mul in H.
  destruct (positive_cases y Hy) as [-> | (my & ey & ->)].
  - destruct x as [[|] | [|] | | [|] mx ex]; try discriminate; reflexivity.
  - destruct x as [[|] | [|] | | sx mx ex]; try discriminate; try reflexivity.
    cbn [SFmul] in H. cbn [valid_binary] in Vx, Vy.
    destruct (mul_located mx ex my ey Vx Vy) as [Hl Hb].
    destruct (binary_round_aux_spec (xorb sx false) _ _ _ _ (Pos2Z.is_nonneg (mx * my)) Hl Hb)
      as (M & M' & E & _ & _ & _ & _ & _ & Hr).
    pose proof (rounds_to_positive _ _ _ Hr H) as Hs.
    destruct sx; [discriminate | reflexivity].
Qed.

Lemma SFdiv_positive x y :
  SFltb (S754_zero false) y = true ->
  SFltb (S754_zero false) (SF64div x y) = true ->
  SFltb (S754_zero false) x = true.
Proof.
  intros Hy H. unfold SF64div in H.
  destruct (positive_cases y Hy) as [-> | (my & ey & ->)].
  - destruct x as [[|] | [|] | | [|] mx ex]; try discriminate; reflexivity.
  - destruct x as [[|] | [|] | | sx mx ex]; try discriminate; try reflexivity.
    cbn [SFdiv] in H.
    pose proof (div_located mx ex my ey) as Hd.
    destruct (SFdiv_core_binary prec emax (Zpos mx) ex (Zpos my) ey) as [[q e'] l].
    destruct Hd as (Hq & Hl & Hb).
    destruct (binary_round_aux_spec (xorb sx false) _ _ _ _ Hq Hl Hb)
      as (M & M' & E & _ & _ & _ & _ & _ & Hr).
    pose proof (rounds_to_positive _ _ _ Hr H) as Hs.
    destruct sx; [discriminate | reflexivity].
Qed.

(** A positive difference [y - x] means [x < y], whatever the operands. *)
Lemma sub_positive_ltb x y : (0 <? y - x) = true -> (x <? y) = true.
Proof.
  intros H. destruct (is_nan x) eqn:Hx; [ | destruct (is_nan y) eqn:Hy].
  - apply is_nan_spec in Hx.
    rewrite FloatAxioms.ltb_spec, FloatAxioms.sub_spec, Hx, Prim2SF_0 in H.
    destruct (Prim2SF y) as [[|] | [|] | | [|] m e]; discriminate.
  - apply is_nan_spec in Hy.
    rewrite FloatAxioms.ltb_spec, FloatAxioms.sub_spec, Hy in H. discriminate.
  - rewrite <- (float_sub_sign x y Hx Hy). exact H.
Qed.

(** X11: for a positive price of the day before, a row shown in the rising
    colour belongs to a record whose current price is greater than that
    price. *)
Theorem rising_row_means_price_rose m candles c0 c1 index :
  JS.gt (trade_price c1) 0 = true ->
  row_changeColor (rowOf index (buildMetrics m candles c0 c1)) = "#10b981" ->
  JS.gt (trade_price c0) (trade_price c1) = true.
Proof.
  unfold rowOf, JS.gt. cbn [row_changeColor buildMetrics priceChangePercent].
  intros Hp Hc.
  destruct (0 <? (trade_price c0 - trade_price c1) / trade_price c1 * 100) eqn:E;
    [clear Hc | discriminate].
  apply sub_positive_ltb.
  rewrite FloatAxioms.ltb_spec, Prim2SF_0 in *.
  rewrite FloatAxioms.mul_spec, FloatAxioms.div_spec in E.
  apply (SFdiv_positive _ (Prim2SF (trade_price c1)) Hp).
  rewrite <- FloatAxioms.div_spec.
  apply (SFmul_positive _ (Prim2SF 100)); try apply Prim2SF_valid.
  - reflexivity.
  - rewrite FloatAxioms.div_spec. exact E.
Qed.

Lemma rising_row_means_price_rose_witness :
  JS.gt (trade_price (candle_at 2)) 0 = true /\
  row_changeColor
    (rowOf 0 (buildMetrics btc rising_days (candle_at 3)
                (candle_at 2))) = "#10b981" /\
  JS.gt (trade_price (candle_at 3)) (trade_price (candle_at 2))
  = true.
Proof.
  assert (H1 : JS.gt (trade_price (candle_at 2)) 0 = true) by reflexivity.
  assert (H2 : row_changeColor
                 (rowOf 0 (buildMetrics btc rising_days (candle_at 3)
                             (candle_at 2))) = "#10b981") by reflexivity.
  split; [exact H1 | ]. split; [exact H2 | ].
  exact (rising_row_means_price_rose btc rising_days _ _ 0 H1 H2).
Defined.

End ChangeFacts.

(* ===================================================================== *)
(** * Further properties: the order and the rows of the dashboard *)
(* ===================================================================== *)

Section SortMore.
Import B64 B64Facts NumFacts.

Lemma ltb_asym x y : (x <? y) = true -> (y <? x) = false.
Proof.
  rewrite !FloatAxioms.ltb_spec. unfold SFltb.
  rewrite (SFcompare_swap (Prim2SF x) (Prim2SF y)).
  destruct (SFcompare (Prim2SF x) (Prim2SF y)) as [[ | | ] | ]; cbn [CompOpp]; congruence.
Qed.

Lemma ltb_not_geb x y : (x <? y) = true -> (y <=? x) = false.
Proof.
  rewrite FloatAxioms.ltb_spec, FloatAxioms.leb_spec. unfold SFltb, SFleb.
  rewrite (SFcompare_swap (Prim2SF x) (Prim2SF y)).
  destruct (SFcompare (Prim2SF x) (Prim2SF y)) as [[ | | ] | ]; cbn [CompOpp]; congruence.
Qed.

Lemma SFeqb_finite x v :
  valid_binary x = true -> valid_binary v = true ->
  SFfinite x = true -> SFfinite v = true ->
  SFeqb x v = true -> SF2R x = SF2R v.
Proof.
  intros Vx Vv Fx Fv. destruct (SFcompare_finite x v Vx Vv Fx Fv) as (c & Hc & Hr).
  unfold SFeqb. rewrite Hc. destruct c; intros; try discriminate. exact Hr.
Qed.

Lemma SFeqb_not_ltb x y v :
  valid_binary x = true -> valid_binary y = true -> valid_binary v = true ->
  SFeqb x v = true -> SFeqb y v = true -> SFltb x y = false.
Proof.
  intros Vx Vy Vv Hx Hy.
  destruct (SFfinite x && SFfinite y && SFfinite v)%bool eqn:F.
  - apply andb_prop in F. destruct F as [F Fv]. apply andb_prop in F. destruct F as [Fx Fy].
    pose proof (SFeqb_finite x v Vx Vv Fx Fv Hx) as Ex.
    pose proof (SFeqb_finite y v Vy Vv Fy Fv Hy) as Ey.
    destruct (SFltb x y) eqn:L; [ | reflexivity].
    apply (SFltb_finite x y Vx Vy Fx Fy) in L. lra.
  - clear Vx Vy Vv.
    destruct x as [[|] | [|] | | [|] mx ex]; destruct v as [[|] | [|] | | [|] mv ev];
      try discriminate Hx;
      destruct y as [[|] | [|] | | [|] my ey];
      try discriminate Hy; try discriminate F; reflexivity.
Qed.

Lemma eqb_not_ltb x y v : (x =? v) = true -> (y =? v) = true -> (x <? y) = false.
Proof.
  rewrite !FloatAxioms.eqb_spec, FloatAxioms.ltb_spec.
  apply SFeqb_not_ltb; apply Prim2SF_valid.
Qed.

Section ByKey.
Variable key : CoinMetrics -> JS.number.
Let cmp (a b : CoinMetrics) : JS.number := key b - key a.

(** Records that the comparator leaves in place, pair by pair. *)
Let settled (l : list CoinMetrics) : Prop :=
  Sorted (fun a b => JS.gt (cmp a b) 0 = false) l.

Lemma insert_same_key x l v :
  List.filter (fun r => key r =? v) (JS.insert cmp x l)
  = List.filter (fun r => key r =? v) (x :: l).
Proof.
  induction l as [ | y l IH]; [reflexivity | ]. cbn [JS.insert].
  destruct (JS.gt (cmp x y) 0) eqn:E; [ | reflexivity].
  cbn [List.filter] in IH |- *. rewrite IH.
  destruct (key x =? v) eqn:Hx; [ | reflexivity].
  destruct (key y =? v) eqn:Hy; [ | reflexivity].
  unfold JS.gt, cmp in E. apply sub_positive_ltb in E.
  rewrite (eqb_not_ltb _ _ _ Hx Hy) in E. discriminate.
Qed.

Lemma sort_same_key l v :
  List.filter (fun r => key r =? v) (JS.sort cmp l)
  = List.filter (fun r => key r =? v) l.
Proof.
  induction l as [ | x l IH]; [reflexivity | ].
  cbn [JS.sort fold_right]. fold (JS.sort cmp l).
  rewrite insert_same_key. cbn [List.filter]. rewrite IH. reflexivity.
Qed.

Lemma descending_settled l : descending key l -> settled l.
Proof.
  unfold descending, settled. induction 1 as [ | x l Hs IH Hd]; constructor; [exact IH | ].
  destruct Hd as [ | y l Hxy]; constructor.
  unfold JS.gt, cmp. destruct (0 <? key y - key x) eqn:E; [ | reflexivity].
  apply sub_positive_ltb, ltb_not_geb in E. congruence.
Qed.

Lemma sort_settled l : settled l -> JS.sort cmp l = l.
Proof.
  unfold settled. induction 1 as [ | x l Hs IH Hd]; [reflexivity | ].
  cbn [JS.sort fold_right]. fold (JS.sort cmp l). rewrite IH.
  destruct Hd as [ | y l Hxy]; [reflexivity | ].
  cbn [JS.insert]. rewrite Hxy. reflexivity.
Qed.

Lemma sort_twice l : no_NaN key l -> JS.sort cmp (JS.sort cmp l) = JS.sort cmp l.
Proof. intros H. apply sort_settled, descending_settled, sort_descending, H. Qed.
End ByKey.

End SortMore.

(** X12: sorting is stable.  For records without [NaN] keys, the records
    that share one value of the chosen key stand in the sorted view in the
    order they had in the input. *)
Theorem sortedMetrics_stable metrics v :
  no_NaN volume24h metrics -> no_NaN rsi metrics ->
  no_NaN priceChangePercent metrics ->
  List.filter (fun r => volume24h r =? v) (sortedMetrics metrics "volume")
  = List.filter (fun r => volume24h r =? v) metrics /\
  List.filter (fun r => rsi r =? v) (sortedMetrics metrics "rsi")
  = List.filter (fun r => rsi r =? v) metrics /\
  List.filter (fun r => priceChangePercent r =? v) (sortedMetrics metrics "change")
  = List.filter (fun r => priceChangePercent r =? v) metrics.
Proof.
  intros _ _ _. unfold sortedMetrics. cbn [String.eqb Ascii.eqb Bool.eqb].
  split; [ | split].
  - apply (sort_same_key volume24h).
  - apply (sort_same_key rsi).
  - apply (sort_same_key priceChangePercent).
Qed.

Lemma sortedMetrics_stable_witness :
  no_NaN volume24h [steady; busy; steady] /\ no_NaN rsi [steady; busy; steady] /\
  no_NaN priceChangePercent [steady; busy; steady] /\
  List.filter (fun r => volume24h r =? 10) (sortedMetrics [steady; busy; steady] "volume")
  = List.filter (fun r => volume24h r =? 10) [steady; busy; steady] /\
  List.filter (fun r => rsi r =? 10) (sortedMetrics [steady; busy; steady] "rsi")
  = List.filter (fun r => rsi r =? 10) [steady; busy; steady] /\
  List.filter (fun r => priceChangePercent r =? 10)
    (sortedMetrics [steady; busy; steady] "change")
  = List.filter (fun r => priceChangePercent r =? 10) [steady; busy; steady].
Proof.
  assert (H1 : no_NaN volume24h [steady; busy; steady]) by (repeat constructor).
  assert (H2 : no_NaN rsi [steady; busy; steady]) by (repeat constructor).
  assert (H3 : no_NaN priceChangePercent [steady; busy; steady]) by (repeat constructor).
  split; [exact H1 | ]. split; [exact H2 | ]. split; [exact H3 | ].
  exact (sortedMetrics_stable [steady; busy; steady] 10 H1 H2 H3).
Defined.

(** X13: sorting again changes nothing.  For records without [NaN] keys,
    the sorted view of a sorted view under the same [sortBy] is that view. *)
Theorem sortedMetrics_idempotent metrics sortBy :
  no_NaN volume24h metrics -> no_NaN rsi metrics ->
  no_NaN priceChangePercent metrics ->
  sortedMetrics (sortedMetrics metrics sortBy) sortBy = sortedMetrics metrics sortBy.
Proof.
  intros Hv Hr Hc. unfold sortedMetrics.
  destruct (String.eqb sortBy "volume"); [apply (sort_twice volume24h), Hv | ].
  destruct (String.eqb sortBy "rsi"); [apply (sort_twice rsi), Hr | ].
  destruct (String.eqb sortBy "change"); [apply (sort_twice priceChangePercent), Hc | ].
  reflexivity.
Qed.

Lemma sortedMetrics_idempotent_witness :
  no_NaN volume24h [steady; busy] /\ no_NaN rsi [steady; busy] /\
  no_NaN priceChangePercent [steady; busy] /\
  sortedMetrics (sortedMetrics [steady; busy] "volume") "volume"
  = sortedMetrics [steady; busy] "volume".
Proof.
  assert (H1 : no_NaN volume24h [steady; busy]) by (repeat constructor).
  assert (H2 : no_NaN rsi [steady; busy]) by (repeat constructor).
  assert (H3 : no_NaN priceChangePercent [steady; busy]) by (repeat constructor).
  split; [exact H1 | ]. split; [exact H2 | ]. split; [exact H3 | ].
  exact (sortedMetrics_idempotent [steady; busy] "volume" H1 H2 H3).
Defined.

(** ** The rows *)

Lemma rowsFrom_spec l : forall index,
  map row_rank (rowsFrom index l) = seq (index + 1) (length l) /\
  map row_market (rowsFrom index l) = map market l.
Proof.
  induction l as [ | coin l IH]; intros index; [split; reflexivity | ].
  destruct (IH (S index)) as [Hr Hm]. cbn [rowsFrom map length seq rowOf row_rank row_market].
  rewrite Hr, Hm. replace (S index + 1)%nat with (S (index + 1)) by lia. split; reflexivity.
Qed.

(** X14: the table has one row per record: the ranks of the rows are
    1, 2, ..., n in this order, and the markets of the rows are the markets
    of the records, each as often as it occurs among them. *)
Theorem dashboard_rows metrics sortBy :
  let rows := rowsFrom 0 (sortedMetrics metrics sortBy) in
  length rows = length metrics /\
  map row_rank rows = seq 1 (length metrics) /\
  Permutation (map row_market rows) (map market metrics).
Proof.
  intros rows. subst rows.
  destruct (rowsFrom_spec (sortedMetrics metrics sortBy) 0) as [Hr Hm].
  pose proof (sortedMetrics_Permutation metrics sortBy) as HP.
  assert (Hlen : length (sortedMetrics metrics sortBy) = length metrics)
    by (symmetry; apply Permutation_length, HP).
  split; [ | split].
  - rewrite <- (length_map row_rank), Hr, length_seq. exact Hlen.
  - rewrite Hr, Hlen. reflexivity.
  - rewrite Hm. apply Permutation_map. symmetry. exact HP.
Qed.

(** X15: when the two newest candles both have a price of zero, the
    percentage of the record is [NaN], and its row is shown in the falling
    colour, without a plus sign. *)
Theorem zero_prices_row m candles c0 c1 index :
  JS.strict_eq (trade_price c0) 0 = true ->
  JS.strict_eq (trade_price c1) 0 = true ->
  let r := buildMetrics m candles c0 c1 in
  is_nan (priceChangePercent r) = true /\
  row_changeColor (rowOf index r) = "#ef4444" /\
  row_changeSign (rowOf index r) = "".
Proof.
  intros H0 H1 r. unfold JS.strict_eq in H0, H1. rewrite FloatAxioms.eqb_spec in H0, H1.
  assert (Hn : Prim2SF (priceChangePercent r) = S754_nan).
  { subst r. cbn [buildMetrics priceChangePercent].
    rewrite FloatAxioms.mul_spec, FloatAxioms.div_spec, FloatAxioms.sub_spec.
    change (Prim2SF 0) with (S754_zero false) in H0, H1.
    destruct (Prim2SF (trade_price c0)) as [[|] | [|] | | [|] m0 e0]; try discriminate H0;
      destruct (Prim2SF (trade_price c1)) as [[|] | [|] | | [|] m1 e1];
      try discriminate H1; reflexivity. }
  split; [apply NumFacts.is_nan_spec, Hn | ].
  unfold rowOf, JS.gt. cbn [row_changeColor row_changeSign].
  rewrite FloatAxioms.ltb_spec, Hn. split; reflexivity.
Qed.

Lemma zero_prices_row_witness :
  JS.strict_eq (trade_price (candle_at 0)) 0 = true /\
  JS.strict_eq (trade_price (candle_at (-0))) 0 = true /\
  let r := buildMetrics btc [] (candle_at 0) (candle_at (-0)) in
  is_nan (priceChangePercent r) = true /\
  row_changeColor (rowOf 0 r) = "#ef4444" /\
  row_changeSign (rowOf 0 r) = "".
Proof.
  assert (H1 : JS.strict_eq (trade_price (candle_at 0)) 0 = true) by reflexivity.
  assert (H2 : JS.strict_eq (trade_price (candle_at (-0))) 0 = true) by reflexivity.
  split; [exact H1 | ]. split; [exact H2 | ].
  exact (zero_prices_row btc [] _ _ 0 H1 H2).
Defined.
